(** * pubsub.js: the event registry, the dispatcher and the inbound router

    A shallow embedding of [src/pubsub.js].  The [pubsub] object keeps one
    mutable object, [events], whose properties hold references to arrays of
    subscription records.  Arrays are shared mutable objects: [push] and
    [splice] change an array in place, [filter] and the literal [[]] create a
    new one.  The embedding therefore keeps a store of arrays next to the
    [events] object, and every operation is a computation over that state
    which may complete normally or throw. *)

From Stdlib Require Import Ascii String.
From stdpp Require Import base option list strings pretty.

(** ** Strings and the regular expressions of the source *)

Module Str.

Definition lower (c : ascii) : ascii :=
  let n := nat_of_ascii c in
  if Nat.leb 65 n && Nat.leb n 90 then ascii_of_nat (n + 32) else c.

Fixpoint prefix_ci (p s : string) : bool :=
  match p, s with
  | EmptyString, _ => true
  | String a p', String b s' => Ascii.eqb (lower a) (lower b) && prefix_ci p' s'
  | String _ _, EmptyString => false
  end.

(** [/p/i.test(s)] for a pattern [p] without metacharacters. *)
Fixpoint contains_ci (p s : string) : bool :=
  prefix_ci p s ||
  match s with
  | EmptyString => false
  | String _ s' => contains_ci p s'
  end.

(** [/p/.test(s)] for a pattern [p] without metacharacters. *)
Fixpoint contains (p s : string) : bool :=
  String.prefix p s ||
  match s with
  | EmptyString => false
  | String _ s' => contains p s'
  end.

(** [s.split(".").pop()]: the text after the last dot, all of [s] when it
    has none. *)
Fixpoint last_segment_from (acc s : string) : string :=
  match s with
  | EmptyString => acc
  | String c s' =>
      if Ascii.eqb c "."%char then last_segment_from "" s'
      else last_segment_from (acc +:+ String c "") s'
  end.

Definition last_segment (s : string) : string := last_segment_from "" s.

Fixpoint join (sep : string) (l : list string) : string :=
  match l with
  | [] => ""
  | [x] => x
  | x :: l' => x +:+ sep +:+ join sep l'
  end.

End Str.

(** ** JavaScript values

    The values that reach the module: primitives, functions, arrays and
    plain data objects.  An object, an array and a function have an
    identity, which is what [===] compares; a function also carries the text
    that [String(f)] yields. *)

Definition fid := nat.
Definition oid := nat.

(** A number: [NaN], or an integer that a double holds exactly (below
    2^53 in magnitude), which is printed in decimal. *)
Inductive number : Type :=
| NaN
| Int (z : Z).

#[warnings="-register-all"]
Inductive value : Type :=
| VUndefined
| VNull
| VBool (b : bool)
| VNumber (n : number)
| VString (s : string)
| VFunction (f : fid) (source : string)
| VArray (a : oid) (elems : list value)
| VObject (a : oid) (props : list (string * value)).

(** [!!v] *)
Definition truthy (v : value) : bool :=
  match v with
  | VUndefined | VNull => false
  | VBool b => b
  | VNumber NaN => false
  | VNumber (Int z) => negb (Z.eqb z 0)
  | VString s => negb (String.eqb s "")
  | VFunction _ _ | VArray _ _ | VObject _ _ => true
  end.

(** [v instanceof Function] *)
Definition is_function (v : value) : bool :=
  match v with VFunction _ _ => true | _ => false end.

(** [String(v)], which is also the property key that [o[v]] and [v in o]
    use, and the text that a regular expression tests.  A plain object
    prints as its tag, an array as its elements joined by commas with
    [undefined] and [null] printed as nothing.  This is the result of the
    conversion where it completes, see [stringifies]. *)
Fixpoint to_string (v : value) : string :=
  match v with
  | VUndefined => "undefined"
  | VNull => "null"
  | VBool true => "true"
  | VBool false => "false"
  | VNumber NaN => "NaN"
  | VNumber (Int z) => pretty z
  | VString s => s
  | VFunction _ source => source
  | VArray _ elems =>
      Str.join ","
        (map (fun e => match e with
                       | VUndefined | VNull => ""
                       | _ => to_string e
                       end) elems)
  | VObject _ _ => "[object Object]"
  end.

(** [a === b] *)
Definition strict_eq (a b : value) : bool :=
  match a, b with
  | VUndefined, VUndefined => true
  | VNull, VNull => true
  | VBool x, VBool y => Bool.eqb x y
  | VNumber (Int x), VNumber (Int y) => Z.eqb x y
  | VString x, VString y => String.eqb x y
  | VFunction f _, VFunction g _ => Nat.eqb f g
  | VArray x _, VArray y _ => Nat.eqb x y
  | VObject x _, VObject y _ => Nat.eqb x y
  | _, _ => false
  end.

(** [/^http/i.test(v)] *)
Definition test_http (v : value) : bool := Str.prefix_ci "http" (to_string v).

(** [o.k] on a plain object; [undefined] when [k] is absent or [o] has no
    such own property. *)
Fixpoint own_prop (k : string) (props : list (string * value)) : option value :=
  match props with
  | [] => None
  | (k', v) :: rest => if String.eqb k' k then Some v else own_prop k rest
  end.

(** The conversion [String(v)] completes with [to_string v].  An object
    is converted by its [toString]: with none of its own it inherits the one
    of [Object.prototype], which yields the tag; one of its own is either
    not callable, and the conversion throws a [TypeError], or code of the
    caller.  An array converts each of its elements. *)
Fixpoint stringifies (v : value) : bool :=
  match v with
  | VArray _ elems => forallb stringifies elems
  | VObject _ props =>
      match own_prop "toString" props with
      | None => true
      | Some _ => false
      end
  | _ => true
  end.

(** ** The [events] object

    [events] is an object literal, so its prototype is [Object.prototype]:
    [events[k]] and [k in events] also find the properties every object
    inherits.  A property of [events] therefore holds either a reference to
    an array of subscriptions or, for an inherited name, a built-in. *)

Definition aref := nat.

Inductive builtin : Type :=
| ObjectPrototype
| BuiltinFunction (name : string) (arity : nat).

(** The properties of [Object.prototype], with the [length] of each
    function; [__proto__] is an accessor that yields the prototype. *)
Definition object_prototype (k : string) : option builtin :=
  if String.eqb k "constructor" then Some (BuiltinFunction "Object" 1)
  else if String.eqb k "hasOwnProperty" then Some (BuiltinFunction k 1)
  else if String.eqb k "isPrototypeOf" then Some (BuiltinFunction k 1)
  else if String.eqb k "propertyIsEnumerable" then Some (BuiltinFunction k 1)
  else if String.eqb k "toLocaleString" then Some (BuiltinFunction k 0)
  else if String.eqb k "toString" then Some (BuiltinFunction k 0)
  else if String.eqb k "valueOf" then Some (BuiltinFunction k 0)
  else if String.eqb k "__defineGetter__" then Some (BuiltinFunction k 2)
  else if String.eqb k "__defineSetter__" then Some (BuiltinFunction k 2)
  else if String.eqb k "__lookupGetter__" then Some (BuiltinFunction k 1)
  else if String.eqb k "__lookupSetter__" then Some (BuiltinFunction k 1)
  else if String.eqb k "__proto__" then Some ObjectPrototype
  else None.

Inductive slot : Type :=
| Bucket (r : aref)
| Inherited (b : builtin).

(** The own properties of [events], in the order they were created. *)
Definition object := list (string * slot).

Module Obj.

Fixpoint get_own (k : string) (o : object) : option slot :=
  match o with
  | [] => None
  | (k', v) :: o' => if String.eqb k' k then Some v else get_own k o'
  end.

(** [o[k]]: an own property first, then the prototype; [None] is
    [undefined]. *)
Definition get (k : string) (o : object) : option slot :=
  match get_own k o with
  | Some v => Some v
  | None => Inherited <$> object_prototype k
  end.

(** [k in o] *)
Definition has (k : string) (o : object) : bool :=
  match get k o with Some _ => true | None => false end.

Fixpoint set_own (k : string) (v : slot) (o : object) : object :=
  match o with
  | [] => [(k, v)]
  | (k', v') :: o' =>
      if String.eqb k' k then (k', v) :: o' else (k', v') :: set_own k v o'
  end.

(** [o[k] = v].  An existing own property keeps its place, a new one is
    created last.  Assigning to [__proto__] runs the inherited setter and
    creates no property; the only value the module assigns there is the one
    it has just read, [Object.prototype] itself, which leaves the prototype
    as it is. *)
Definition set (k : string) (v : slot) (o : object) : object :=
  if String.eqb k "__proto__" then o else set_own k v o.

(** Array indices are the canonical decimal strings below 2^32 - 1. *)
Definition digit (c : ascii) : option N :=
  let n := N_of_ascii c in
  if N.leb 48 n && N.leb n 57 then Some (n - 48)%N else None.

Fixpoint parse_digits (acc : N) (s : string) : option N :=
  match s with
  | EmptyString => Some acc
  | String c s' =>
      match digit c with
      | Some d => parse_digits (10 * acc + d)%N s'
      | None => None
      end
  end.

Definition array_index (k : string) : option N :=
  match k with
  | EmptyString => None
  | String c rest =>
      if Ascii.eqb c "0"%char && negb (String.eqb rest "") then None
      else match parse_digits 0 k with
           | Some n => if N.ltb n 4294967295 then Some n else None
           | None => None
           end
  end.

Fixpoint insert_by_index (n : N) (e : string * slot)
    (l : list (N * (string * slot))) : list (N * (string * slot)) :=
  match l with
  | [] => [(n, e)]
  | (m, e') :: l' =>
      if N.ltb n m then (n, e) :: l else (m, e') :: insert_by_index n e l'
  end.

Fixpoint indexed (o : object) : list (N * (string * slot)) :=
  match o with
  | [] => []
  | e :: o' =>
      match array_index e.1 with
      | Some n => insert_by_index n e (indexed o')
      | None => indexed o'
      end
  end.

Fixpoint named (o : object) : list (string * slot) :=
  match o with
  | [] => []
  | e :: o' =>
      match array_index e.1 with
      | Some _ => named o'
      | None => e :: named o'
      end
  end.

(** [Object.entries(o)], also the order of [Object.keys(o)] and of
    [for (k in o)]: array indices in ascending order, then the other keys
    in creation order. *)
Definition entries (o : object) : list (string * slot) :=
  (indexed o).*2 ++ named o.

Definition keys (o : object) : list string := (entries o).*1.

End Obj.

(** ** Subscription records and the state *)

(** [{ observer, callback }] and [{ observer, payload }] *)
Inductive subscription : Type :=
| Local (observer callback : value)
| Remote (observer payload : value).

Definition observer_of (s : subscription) : value :=
  match s with Local o _ | Remote o _ => o end.

(** ["payload" in instance] *)
Definition has_payload (s : subscription) : bool :=
  match s with Remote _ _ => true | Local _ _ => false end.

(** What [publishRemotely] is handed: a subscription record by [publish],
    a reply [{ response, observer, info }] by the message listener. *)
Inductive remote_info : Type :=
| OfSubscription (s : subscription)
| Reply (response observer info : value).

Definition info_observer (i : remote_info) : value :=
  match i with
  | OfSubscription s => observer_of s
  | Reply _ o _ => o
  end.

Inductive exn : Type :=
| TypeError (what : string)
| ReferenceError (what : string)
| SecurityError
| Raised (v : value).

(** What the module does to the outside, in the order it happens. *)
Inductive effect : Type :=
| Call (callback : fid) (data : value)
| PostToFrame (i : nat) (info : remote_info) (targetOrigin : string)
| PostToOpener (info : remote_info)
| WarnDispatch (eventName : value) (instance : subscription)
| WarnUnfound (info : remote_info)
| ErrorSubscribe (known : list string)
| ErrorSubscribeMultiple (known : list string)
| ErrorUnsubscribe (known : list string)
| ErrorUnsubscribeObserver
| ErrorResolver (site : string) (e : exn) (data : value)
| ErrorNotUnderstood (data : value)
| ResolveAsync (path args data : value)
| AddMessageListener
| AssignAppPostMessage (response : value).

Record registry : Type := Registry {
  events : object;
  heap : list (list subscription)
}.

Record state : Type := State {
  reg : registry;
  trace : list effect;
  fresh : oid
}.

Inductive outcome (A : Type) : Type :=
| Return (a : A)
| Throw (e : exn).
Arguments Return {A} a.
Arguments Throw {A} e.

(** Computations over the state that complete or throw. *)
Definition M (A : Type) : Type := state → outcome A * state.

#[global] Instance M_ret : MRet M := λ A (a : A) s, (Return a, s).

#[global] Instance M_bind : MBind M := λ A B (f : A → M B) (m : M A) s,
  match m s with
  | (Return a, s') => f a s'
  | (Throw e, s') => (Throw e, s')
  end.

Definition throw {A} (e : exn) : M A := λ s, (Throw e, s).

(** [try { m } catch (err) { h err }] *)
Definition try_catch {A} (m : M A) (h : exn → M A) : M A := λ s,
  match m s with
  | (Return a, s') => (Return a, s')
  | (Throw e, s') => h e s'
  end.

Definition get_registry : M registry := λ s, (Return (reg s), s).

Definition put_registry (r : registry) : M unit := λ s,
  (Return (), State r (trace s) (fresh s)).

Definition emit (e : effect) : M unit := λ s,
  (Return (), State (reg s) (trace s ++ [e]) (fresh s)).

(** [this.events[k]] *)
Definition read_event (k : string) : M (option slot) :=
  r ← get_registry; mret (Obj.get k (events r)).

(** [this.events[k] = v] *)
Definition write_event (k : string) (v : slot) : M unit :=
  r ← get_registry; put_registry (Registry (Obj.set k v (events r)) (heap r)).

(** A new array with the given elements. *)
Definition new_array (l : list subscription) : M aref :=
  r ← get_registry;
  put_registry (Registry (events r) (heap r ++ [l]));;
  mret (length (heap r)).

Definition contents (r : aref) (g : registry) : list subscription :=
  default [] (heap g !! r).

Definition read_array (r : aref) : M (list subscription) :=
  g ← get_registry; mret (contents r g).

Definition write_array (r : aref) (l : list subscription) : M unit :=
  g ← get_registry; put_registry (Registry (events g) (<[r := l]> (heap g))).

Fixpoint for_each {A} (l : list A) (f : A → M unit) : M unit :=
  match l with
  | [] => mret ()
  | x :: l' => f x;; for_each l' f
  end.

(** [Array.prototype.forEach] on the array [r]: the length is read once,
    when the call begins, and every index below it is then looked up in the
    array as it is at that moment; an index the array no longer has is
    passed over. *)
Fixpoint forEach_from (r : aref) (k n : nat) (f : subscription → M unit) : M unit :=
  match n with
  | 0 => mret ()
  | S n' =>
      l ← read_array r;
      match l !! k with
      | Some x => f x
      | None => mret ()
      end;;
      forEach_from r (S k) n' f
  end.

Definition forEach (r : aref) (f : subscription → M unit) : M unit :=
  l ← read_array r; forEach_from r 0 (length l) f.

(** ** The browser window *)

(** A child frame: [location.href] cannot be read across origins (the
    access throws), [postMessage] says whether ["postMessage" in frame]. *)
Record frame : Type := Frame {
  location_href : option string;
  postMessage : bool
}.

Record opener_window : Type := Opener { closed : bool }.

(** [app] says whether the page defines the global object [app], which
    the listener reads as [app] and writes as [window.app]; the module
    itself defines none. *)
Record window : Type := Window {
  frames : list frame;
  opener : option opener_window;
  location_origin : string;
  app : bool
}.

(** [href == v] for the URL [href] of a frame.  An object is compared
    through its string; a URL is no numeric literal, so it equals no
    boolean and no number. *)
Definition loose_eq_href (href : string) (v : value) : bool :=
  match v with
  | VUndefined | VNull | VBool _ | VNumber _ => false
  | VString s => String.eqb href s
  | VFunction _ _ | VArray _ _ | VObject _ _ => String.eqb href (to_string v)
  end.

(** The loop of [publishRemotely]: the last frame whose address equals the
    observer. *)
Fixpoint find_child (observer : value) (fs : list frame) (i : nat)
    (child : option (nat * frame)) : outcome (option (nat * frame)) :=
  match fs with
  | [] => Return child
  | f :: fs' =>
      match location_href f with
      | None => Throw SecurityError
      | Some href =>
          find_child observer fs' (S i)
            (if loose_eq_href href observer then Some (i, f) else child)
      end
  end.

(** ** Message events *)

Record message_event : Type := MessageEvent {
  isTrusted : bool;
  data : value
}.

(** [k in v] for the field names the listener asks about ([type],
    [method], [getter], [rest]), none of which [Object.prototype], an array
    or a function has; on a primitive the operator throws. *)
Definition has_field (k : string) (v : value) : bool :=
  match v with
  | VObject _ props => bool_decide (is_Some (own_prop k props))
  | _ => false
  end.

Definition in_operator (k : string) (v : value) : outcome bool :=
  match v with
  | VObject _ _ | VArray _ _ | VFunction _ _ => Return (has_field k v)
  | _ => Throw (TypeError "cannot use 'in' operator on a primitive")
  end.

(** [v.k] for the fields of a message. *)
Definition field (k : string) (v : value) : value :=
  match v with
  | VObject _ props => default VUndefined (own_prop k props)
  | _ => VUndefined
  end.

(** [v.constructor.name === "Object"].  A plain object inherits the
    constructor [Object] unless it has a property of that name itself; a
    message, being a structured clone, holds no function. *)
Definition constructor_is_Object (v : value) : outcome bool :=
  match v with
  | VObject _ props =>
      match own_prop "constructor" props with
      | None => Return true
      | Some (VUndefined | VNull) =>
          Throw (TypeError "event.data.constructor is undefined")
      | Some (VObject _ ps) =>
          Return (match own_prop "name" ps with
                  | Some (VString n) => String.eqb n "Object"
                  | _ => false
                  end)
      | Some _ => Return false
      end
  | VUndefined | VNull => Throw (TypeError "event.data is undefined")
  | _ => Return false
  end.

(** [re.test(v)] converts [v] to a string before it matches; the
    conversion may throw. *)
Definition test_subject (v : value) : outcome string :=
  if stringifies v then Return (to_string v)
  else Throw (TypeError "cannot convert object to primitive value").

(** ** The operations of [pubsub] *)

Section Pubsub.

(** The functions subscribed as callbacks: [invoke f data] runs the
    function with identity [f]; it may change the registry (a callback can
    call back into [pubsub]) and it completes or throws a value. *)
Variable invoke : fid → value → registry → registry * option value.

Variable win : window.

(** [executeDotNotation] is not part of the module: the application
    supplies it.  It resolves a dotted path against the window and may call
    what it finds. *)
Variable executeDotNotation : value → value → registry → registry * outcome value.

(** [this.events[k] = this.events[k] || []] *)
Definition ensure_bucket (k : string) : M unit :=
  v ← read_event k;
  match v with
  | Some x => write_event k x
  | None => r ← new_array []; write_event k (Bucket r)
  end.

(** [this.events[k].push(record)] *)
Definition push (k : string) (record : subscription) : M unit :=
  v ← read_event k;
  match v with
  | Some (Bucket r) => l ← read_array r; write_array r (l ++ [record])
  | Some (Inherited _) => throw (TypeError "this.events[eventName].push is not a function")
  | None => throw (TypeError "this.events[eventName] is undefined")
  end.

Definition known_events : M (list string) :=
  g ← get_registry; mret (Obj.keys (events g)).

Definition subscribe (eventName observer callback : value) : M unit :=
  if truthy eventName then
    if truthy callback && is_function callback then
      ensure_bucket (to_string eventName);;
      push (to_string eventName) (Local observer callback)
    else if test_http observer then
      ensure_bucket (to_string eventName);;
      push (to_string eventName) (Remote observer callback)
    else mret ()
  else
    ks ← known_events; emit (ErrorSubscribe ks).

Definition subscribeMultiple (eventNames observer callback : value) : M unit :=
  match eventNames with
  | VArray _ names =>
      if truthy callback && is_function callback then
        for_each names (λ name,
          ensure_bucket (to_string name);;
          push (to_string name) (Local observer callback))
      else mret ()
  | _ => ks ← known_events; emit (ErrorSubscribeMultiple ks)
  end.

(** The loop of [unsubscribe] on an array: the first record of the
    observer is spliced out and the loop breaks. *)
Fixpoint splice_first (observer : value) (l : list subscription) : list subscription :=
  match l with
  | [] => []
  | x :: l' =>
      if strict_eq (observer_of x) observer then l'
      else x :: splice_first observer l'
  end.

Definition unsubscribe (eventName observer : value) : M unit :=
  g ← get_registry;
  if truthy eventName && Obj.has (to_string eventName) (events g) then
    match Obj.get (to_string eventName) (events g) with
    | Some (Bucket r) =>
        l ← read_array r; write_array r (splice_first observer l)
    | Some (Inherited (BuiltinFunction _ (S _))) =>
        throw (TypeError "this.events[eventName][i] is undefined")
    | Some (Inherited _) => mret ()
    | None => mret ()
    end
  else
    ks ← known_events; emit (ErrorUnsubscribe ks).

Definition unsubscribeObserver (observer : value) : M unit :=
  if truthy observer then
    g ← get_registry;
    for_each (Obj.entries (events g)) (λ '(key, value),
      match value with
      | Bucket r =>
          l ← read_array r;
          r' ← new_array
                 (filter (λ subscription,
                            strict_eq (observer_of subscription) observer = false) l);
          write_event key (Bucket r')
      | Inherited _ => throw (TypeError "value.filter is not a function")
      end)
  else emit ErrorUnsubscribeObserver.

Definition publishRemotely (info : remote_info) (data : value) : M unit :=
  match find_child (info_observer info) (frames win) 0 None with
  | Throw e => throw e
  | Return child =>
      match child with
      | Some (i, f) =>
          if postMessage f then emit (PostToFrame i info (location_origin win))
          else
            match opener win with
            | Some o =>
                if negb (closed o) then emit (PostToOpener info)
                else emit (WarnUnfound info)
            | None => emit (WarnUnfound info)
            end
      | None =>
          match opener win with
          | Some o =>
              if negb (closed o) then emit (PostToOpener info)
              else emit (WarnUnfound info)
          | None => emit (WarnUnfound info)
          end
      end
  end.

(** The body of the function [f] applied to [data]. *)
Definition run (f : fid) (data : value) : M unit := λ s,
  let '(g, thrown) := invoke f data (reg s) in
  (match thrown with
   | None => Return ()
   | Some v => Throw (Raised v)
   end, State g (trace s) (fresh s)).

(** [instance.callback(data)] *)
Definition call_callback (instance : subscription) (data : value) : M unit :=
  match instance with
  | Local _ (VFunction f _) =>
      emit (Call f data);; run f data
  | _ => throw (TypeError "instance.callback is not a function")
  end.

(** The function that [publish] passes to [forEach]. *)
Definition dispatch (eventName data : value) (instance : subscription) : M unit :=
  try_catch
    (if has_payload instance then publishRemotely (OfSubscription instance) data
     else call_callback instance data)
    (λ err, emit (WarnDispatch eventName instance)).

Definition publish (eventName data : value) : M unit :=
  v ← read_event (to_string eventName);
  match v with
  | Some (Bucket r) => forEach r (dispatch eventName data)
  | Some (Inherited _) => throw (TypeError "this.events[eventName].forEach is not a function")
  | None => mret ()
  end.

(** [this.events[eventName].length > 0] *)
Definition slot_nonempty (g : registry) (v : slot) : bool :=
  match v with
  | Bucket r => Nat.ltb 0 (length (contents r g))
  | Inherited (BuiltinFunction _ n) => Nat.ltb 0 n
  | Inherited ObjectPrototype => false
  end.

Definition isSubscribed (eventName : value) (g : registry) : bool :=
  Obj.has (to_string eventName) (events g) &&
  match Obj.get (to_string eventName) (events g) with
  | Some v => slot_nonempty g v
  | None => false
  end.

(** The value returned is the property itself, [None] is [null]. *)
Definition isSubscribedByWho (eventName : value) (g : registry) : option slot :=
  if Obj.has (to_string eventName) (events g)
  then Obj.get (to_string eventName) (events g)
  else None.

Definition initialize : M unit :=
  g ← get_registry;
  for_each (Obj.keys (events g)) (λ listener,
    r ← new_array []; write_event listener (Bucket r)).

(** ** The listener of [initPostMessaging] *)

Definition lift {A} (o : outcome A) : M A := λ s, (o, s).

(** [{}] *)
Definition new_object : M value := λ s,
  (Return (VObject (fresh s) []), State (reg s) (trace s) (S (fresh s))).

(** [v || {}] *)
Definition or_empty (v : value) : M value :=
  if truthy v then mret v else new_object.

Definition resolve (path args : value) : M value := λ s,
  let '(g, o) := executeDotNotation path args (reg s) in
  (o, State g (trace s) (fresh s)).

(** The listener.  The fields that a regular expression tests are
    converted to strings, outside every [try] but for [getter].  The
    statement that merges an authorization response into the application
    reads the global [app] first: where the page defines none it throws. *)
Definition on_message (event : message_event) : M unit :=
  if isTrusted event then
    has_type ← lift (in_operator "type" (data event));
    is_authorization ←
      (if has_type : bool then
         type ← lift (test_subject (field "type" (data event)));
         mret (Str.contains "authorization_response" type)
       else mret false);
    if is_authorization : bool then
      response ← or_empty (field "response" (data event));
      publish (VString "postMessage") response;;
      if app win then
        response' ← or_empty (field "response" (data event));
        emit (AssignAppPostMessage response')
      else throw (ReferenceError "app is not defined")
    else
      plain ← lift (constructor_is_Object (data event));
      if plain : bool then
        if has_field "method" (data event) then
          method ← lift (test_subject (field "method" (data event)));
          if Str.contains_ci "pubsub" method then
            match field "method" (data event) with
            | VString path =>
                let method := Str.last_segment path in
                if String.eqb method "subscribe" || String.eqb method "subscribeMultiple" then
                  subscribe (field "args" (data event)) (field "observer" (data event))
                    (data event)
                else if String.eqb method "unsubscribe" then
                  subscribe (field "args" (data event)) (field "observer" (data event))
                    VUndefined
                else if String.eqb method "unsubscribeObserver" then
                  subscribe (field "observer" (data event)) VUndefined VUndefined
                else mret ()
            | _ => throw (TypeError "event.data.method.split is not a function")
            end
          else
            try_catch
              (response ← resolve (field "method" (data event)) (field "args" (data event));
               publishRemotely
                 (Reply response (field "observer" (data event)) (data event)) VUndefined)
              (λ e, emit (ErrorResolver "method" e (data event)))
        else if has_field "getter" (data event) then
          try_catch
            (getter ← lift (test_subject (field "getter" (data event)));
             if Str.contains_ci "async" getter then
               resolve (field "getter" (data event)) (field "args" (data event));;
               emit (ResolveAsync (field "getter" (data event))
                       (field "args" (data event)) (data event))
             else
               response ← resolve (field "getter" (data event)) (field "args" (data event));
               publishRemotely
                 (Reply response (field "observer" (data event)) (data event)) VUndefined)
            (λ e, emit (ErrorResolver "getter" e (data event)))
        else if has_field "rest" (data event) then
          try_catch
            (resolve (field "rest" (data event)) (field "args" (data event));; mret ())
            (λ e, emit (ErrorResolver "rest" e (data event)))
        else emit (ErrorNotUnderstood (data event))
      else emit (ErrorNotUnderstood (data event))
  else mret ().

Definition initPostMessaging : M unit :=
  emit AddMessageListener;;
  r ← new_array []; write_event "postMessage" (Bucket r).

End Pubsub.

(** ** The registry as the module creates it: [{ "default": [] }] *)

Definition initial_registry : registry := Registry [("default", Bucket 0)] [[]].

Definition initial : state := State initial_registry [] 0.

(** ** Vocabulary of the properties *)

(** The callback invocations in a trace, in order. *)
Definition calls (t : list effect) : list (fid * value) :=
  omap (λ e, match e with Call f d => Some (f, d) | _ => None end) t.

(** The effects of the remote bridge. *)
Definition is_remote (e : effect) : bool :=
  match e with
  | PostToFrame _ _ _ | PostToOpener _ | WarnUnfound _ => true
  | _ => false
  end.

(** What an effect of the remote bridge was handed. *)
Definition remote_info_of (e : effect) : option remote_info :=
  match e with
  | PostToFrame _ info _ | PostToOpener info | WarnUnfound info => Some info
  | _ => None
  end.

(** If the effect is one of the remote bridge about a subscription
    record, the record has a payload. *)
Definition routes_payload_only (e : effect) : Prop :=
  ∀ x, remote_info_of e = Some (OfSubscription x) → has_payload x = true.

(** The callbacks of the local records of a bucket, in order. *)
Definition callbacks_of (b : list subscription) : list fid :=
  omap (λ x, match x with Local _ (VFunction f _) => Some f | _ => None end) b.

(** The event name [k] holds the array [r], whose records are [b]. *)
Definition bucket_at (k : string) (g : registry) (r : aref) (b : list subscription) : Prop :=
  Obj.get k (events g) = Some (Bucket r) ∧ heap g !! r = Some b.

(** The event name [k] is free, or it holds an array. *)
Definition free_or_bucket (k : string) (g : registry) : Prop :=
  Obj.get k (events g) = None ∨ ∃ r b, bucket_at k g r b.

(** Every own property of [events] holds an array. *)
Definition all_buckets (g : registry) : Prop :=
  ∀ k v, (k, v) ∈ events g → ∃ r b, v = Bucket r ∧ heap g !! r = Some b.

(** The records that the event name [k] holds. *)
Definition records (k : string) (g : registry) : list subscription :=
  match Obj.get k (events g) with
  | Some (Bucket r) => contents r g
  | _ => []
  end.

(** The own properties of [events] have distinct names, none of them
    [__proto__], and each holds an array. *)
Definition well_formed (g : registry) : Prop :=
  NoDup (events g).*1 ∧ ("__proto__" ∉ (events g).*1) ∧ all_buckets g.

(** The number of records of an observer in a bucket. *)
Definition count_observer (observer : value) (b : list subscription) : nat :=
  length (filter (λ x, strict_eq (observer_of x) observer = true) b).

(** The records of the other observers, in order. *)
Definition others (observer : value) (b : list subscription) : list subscription :=
  filter (λ x, strict_eq (observer_of x) observer = false) b.

(** Two states with the same registry and the same callback invocations
    so far. *)
Definition same_delivery (s s' : state) : Prop :=
  reg s = reg s' ∧ calls (trace s) = calls (trace s').

Section Callbacks.

Variable invoke : fid → value → registry → registry * option value.

(** No callback changes the registry. *)
Definition callbacks_pure : Prop :=
  ∀ f d g, (invoke f d g).1 = g.

(** No callback removes or replaces one of the first [n] records of the
    array [r]: it may append to the array, bind the event name to another
    array, or work on other arrays. *)
Definition keeps_prefix (r : aref) (n : nat) : Prop :=
  ∀ f d g, n ≤ length (contents r g) →
    take n (contents r (invoke f d g).1) = take n (contents r g).

(** No callback removes or replaces a record of any array. *)
Definition keeps_records : Prop := ∀ r n, keeps_prefix r n.

(** The callbacks with every throw replaced by a normal return: what
    they do to the registry is kept. *)
Definition silenced : fid → value → registry → registry * option value :=
  λ f d g, ((invoke f d g).1, None).

(** The registry after the record [x] has been dispatched. *)
Definition after_dispatch (d : value) (x : subscription) (g : registry) : registry :=
  match x with
  | Local _ (VFunction f _) => (invoke f d g).1
  | _ => g
  end.

(** The registry after the records of [b] have been dispatched in order. *)
Definition after_all (d : value) (b : list subscription) (g : registry) : registry :=
  foldl (λ g x, after_dispatch d x g) g b.

(** [publish] as the specification words it: the bucket is copied when
    [publish] begins and the copy is what is iterated. *)
Definition publish_snapshot (win : window) (eventName data : value) : M unit :=
  v ← read_event (to_string eventName);
  match v with
  | Some (Bucket r) =>
      snapshot ← read_array r;
      for_each snapshot (dispatch invoke win eventName data)
  | Some (Inherited _) =>
      throw (TypeError "this.events[eventName].forEach is not a function")
  | None => mret ()
  end.

End Callbacks.

(** A sequence of [subscribe] calls to one event name, each with its
    observer and its third argument. *)
Definition subscribe_all (eventName : value) (subs : list (value * value)) : M unit :=
  for_each subs (λ '(observer, callback), subscribe eventName observer callback).

(** The record that [subscribe] appends for an observer and a third
    argument, if any. *)
Definition record_of (sub : value * value) : option subscription :=
  let '(observer, callback) := sub in
  if truthy callback && is_function callback then Some (Local observer callback)
  else if test_http observer then Some (Remote observer callback)
  else None.

(** The body of the loop of [unsubscribeObserver]. *)
Definition filter_entry (observer : value) : string * slot → M unit :=
  λ '(key, value),
    match value with
    | Bucket r =>
        l ← read_array r;
        r' ← new_array
               (filter (λ subscription,
                          strict_eq (observer_of subscription) observer = false) l);
        write_event key (Bucket r')
    | Inherited _ => throw (TypeError "value.filter is not a function")
    end.

(** [Array.isArray(v)] *)
Definition is_array (v : value) : bool :=
  match v with VArray _ _ => true | _ => false end.

(** What the specification asks of the arguments of [subscribeMultiple]:
    a non-empty array of names and a callable handler. *)
Definition meets_requirements (eventNames callback : value) : bool :=
  match eventNames with
  | VArray _ (_ :: _) => truthy callback && is_function callback
  | _ => false
  end.

(** What a sequence of [subscribe] calls to the event name registers. *)
Definition registered (eventName : value) (subs : list (value * value)) : list subscription :=
  if truthy eventName then omap record_of subs else [].

(** The functions passed as callbacks to a sequence of [subscribe] calls,
    in the order of the calls. *)
Definition callable_ids (subs : list (value * value)) : list fid :=
  omap (λ sub, match sub.2 with VFunction f _ => Some f | _ => None end) subs.

(** ** Concrete callbacks, windows and registries *)

Definition handler (f : fid) : value := VFunction f "function (data) {}".

(** Callbacks that do nothing. *)
Definition quiet : fid → value → registry → registry * option value :=
  λ _ _ g, (g, None).

(** The callback 0 throws, the others do nothing. *)
Definition first_throws : fid → value → registry → registry * option value :=
  λ f _ g, (g, if Nat.eqb f 0 then Some (VString "boom") else None).

(** The registry that a call made from inside a callback leaves. *)
Definition inside (m : M unit) (g : registry) : registry :=
  reg (m (State g [] 0)).2.

(** The callback 0 calls [pubsub.unsubscribe("evt", "w")]. *)
Definition first_unsubscribes_itself : fid → value → registry → registry * option value :=
  λ f _ g,
    if Nat.eqb f 0 then (inside (unsubscribe (VString "evt") (VString "w")) g, None)
    else (g, None).

(** The callback 0 calls [pubsub.subscribe("evt", "u", h2)]. *)
Definition first_subscribes_another : fid → value → registry → registry * option value :=
  λ f _ g,
    if Nat.eqb f 0
    then (inside (subscribe (VString "evt") (VString "u") (handler 2)) g, None)
    else (g, None).

(** The callback 0 calls [pubsub.unsubscribeObserver("w")]. *)
Definition first_unsubscribes_observer : fid → value → registry → registry * option value :=
  λ f _ g,
    if Nat.eqb f 0 then (inside (unsubscribeObserver (VString "w")) g, None)
    else (g, None).

(** A window without frames and without opener. *)
Definition alone : window := Window [] None "https://app.example" true.

(** [subscribe("evt", "w", h0); subscribe("evt", "v", h1)] *)
Definition two_on_evt : state :=
  State (Registry [("default", Bucket 0); ("evt", Bucket 1)]
           [[]; [Local (VString "w") (handler 0); Local (VString "v") (handler 1)]])
    [] 0.

(** [subscribe("default", "z", h0); subscribe("login", "z", h0)] *)
Definition z_on_two : state :=
  State (Registry [("default", Bucket 0); ("login", Bucket 1)]
           [[Local (VString "z") (handler 0)]; [Local (VString "z") (handler 0)]])
    [] 0.

Definition message_unsubscribeObserver : value :=
  VObject 1 [("observer", VString "https://x");
             ("method", VString "app.pubsub.unsubscribeObserver");
             ("args", VString "z")].

Definition message_unsubscribe : value :=
  VObject 2 [("observer", VString "https://x");
             ("method", VString "app.pubsub.unsubscribe");
             ("args", VString "login")].

(** The observer "x" subscribed twice to "login", "y" between the two. *)
Definition x_twice : state :=
  State (Registry [("default", Bucket 0); ("login", Bucket 1)]
           [[]; [Local (VString "x") (handler 0); Local (VString "y") (handler 1);
                 Local (VString "x") (handler 2)]])
    [] 0.

(** ** The alternative syntax *)

Definition addEventListener (eventName observer callback : value) : M unit :=
  subscribe eventName observer callback.

(** [unsubscribe] has two parameters: the callback handed over is
    dropped. *)
Definition removeEventListener (eventName observer callback : value) : M unit :=
  unsubscribe eventName observer.

Definition clearEventListeners : M unit := initialize.

(** ** Vocabulary of the further properties *)

(** The address of the frame can be read. *)
Definition readable (f : frame) : Prop := is_Some (location_href f).

(** [frame.location.href == observer] *)
Definition frame_matches (observer : value) (f : frame) : bool :=
  match location_href f with
  | Some href => loose_eq_href href observer
  | None => false
  end.

(** The own properties of [events] have distinct names, none of them
    [__proto__]; every array they hold exists, and no two names hold the
    same array. *)
Definition sound (g : registry) : Prop :=
  NoDup (events g).*1
  ∧ ("__proto__" ∉ (events g).*1)
  ∧ (∀ k r, (k, Bucket r) ∈ events g → r < length (heap g))
  ∧ (∀ k1 k2 r, (k1, Bucket r) ∈ events g → (k2, Bucket r) ∈ events g → k1 = k2).

(** The computation keeps the property [P] of the registry, whether it
    completes or throws. *)
Definition preserves (P : registry → Prop) {A} (m : M A) : Prop :=
  ∀ s, P (reg s) → P (reg (m s).2).

(** What [ensure_bucket] and [push] on the name [k] keep: the soundness of
    the registry, what another name holds and its records. *)
Definition untouched (k' : string) (v : option slot) (b : list subscription)
    (g : registry) : Prop :=
  sound g ∧ Obj.get k' (events g) = v ∧ records k' g = b.

(** The event name [k] resolves to a built-in of [Object.prototype]. *)
Definition holds_builtin (k : string) (g : registry) : Prop :=
  ∃ b, Obj.get k (events g) = Some (Inherited b).

(** A message that is a plain object without a [type] field. *)
Definition plain_message (props : list (string * value)) : Prop :=
  own_prop "type" props = None ∧ own_prop "constructor" props = None.

(** A registry in which a [subscribe] to "toString" has failed. *)
Definition poisoned : state :=
  State (Registry [("default", Bucket 0); ("toString", Inherited (BuiltinFunction "toString" 0))]
           [[Local (VString "z") (handler 0)]])
    [] 0.

(** No resolver has been supplied: the call of [executeDotNotation]
    throws. *)
Definition absent_resolver : value → value → registry → registry * outcome value :=
  λ _ _ g, (g, Throw (TypeError "this.executeDotNotation is not a function")).

Definition message_subscribe_many : value :=
  VObject 3 [("observer", VString "https://x/");
             ("method", VString "app.pubsub.subscribeMultiple");
             ("args", VArray 4 [VString "signin"; VString "signout"])].

Definition message_method : value :=
  VObject 5 [("observer", VString "https://x/");
             ("method", VString "app.auth.getToken");
             ("args", VNull)].

Definition message_authorization : value :=
  VObject 6 [("type", VString "oauth.authorization_response");
             ("response", VObject 7 [("token", VString "t")]);
             ("method", VString "app.pubsub.unsubscribeObserver");
             ("observer", VString "evt")].

(** "postMessage" holds the records of "w" and "v". *)
Definition two_on_postMessage : state :=
  State (Registry [("default", Bucket 0); ("postMessage", Bucket 1)]
           [[]; [Local (VString "w") (handler 0); Local (VString "v") (handler 1)]])
    [] 0.

(** How many of the names are the event name [k]. *)
Definition count_key (k : string) (names : list value) : nat :=
  length (filter (λ name, to_string name = k) names).

(** A window with two frames at the same address and one elsewhere. *)
Definition three_frames : window :=
  Window [Frame (Some "https://x/") true; Frame (Some "https://y/") true;
          Frame (Some "https://x/") true]
    None "https://app.example" true.

(** A page that defines no [app]. *)
Definition without_app : window := Window [] None "https://app.example" false.

(** A message whose method does not convert to a string. *)
Definition message_unconvertible : value :=
  VObject 8 [("observer", VString "https://x/");
             ("method", VObject 9 [("toString", VString "x")])].


(** * Properties *)

Lemma bind_run {A B} (m : M A) (f : A → M B) s :
  (m ≫= f) s =
  match m s with
  | (Return a, s') => f a s'
  | (Throw e, s') => (Throw e, s')
  end.
Proof. reflexivity. Qed.

Lemma read_event_run k s :
  read_event k s = (Return (Obj.get k (events (reg s))), s).
Proof. reflexivity. Qed.

Lemma write_event_run k v s :
  write_event k v s =
  (Return (), State (Registry (Obj.set k v (events (reg s))) (heap (reg s)))
                (trace s) (fresh s)).
Proof. reflexivity. Qed.

Lemma new_array_run l s :
  new_array l s =
  (Return (length (heap (reg s))),
   State (Registry (events (reg s)) (heap (reg s) ++ [l])) (trace s) (fresh s)).
Proof. reflexivity. Qed.

Lemma read_array_run r s : read_array r s = (Return (contents r (reg s)), s).
Proof. reflexivity. Qed.

Lemma write_array_run r l s :
  write_array r l s =
  (Return (), State (Registry (events (reg s)) (<[r := l]> (heap (reg s))))
                (trace s) (fresh s)).
Proof. reflexivity. Qed.

Lemma emit_run e s : emit e s = (Return (), State (reg s) (trace s ++ [e]) (fresh s)).
Proof. reflexivity. Qed.

Lemma known_events_run s : known_events s = (Return (Obj.keys (events (reg s))), s).
Proof. reflexivity. Qed.

Ltac step :=
  repeat first
    [ rewrite bind_run | rewrite read_event_run | rewrite write_event_run
    | rewrite new_array_run | rewrite read_array_run | rewrite write_array_run
    | rewrite emit_run | rewrite known_events_run
    | progress cbn [reg events heap trace fresh] ].

Lemma calls_app t1 t2 : calls (t1 ++ t2) = calls t1 ++ calls t2.
Proof. unfold calls. apply omap_app. Qed.

Section Dispatch.

Variable invoke : fid → value → registry → registry * option value.
Variable win : window.

(** The remote bridge completes or throws, leaves the registry alone and
    calls no callback. *)
Lemma publishRemotely_spec info d s :
  ∃ o t, publishRemotely win info d s = (o, State (reg s) (trace s ++ t) (fresh s))
         ∧ calls t = [].
Proof.
  unfold publishRemotely.
  destruct (find_child _ _ _ _) as [[[i f]|]|e]; simpl.
  - destruct (postMessage f); [by eexists _, [_]|].
    destruct (opener win) as [o|]; [destruct (closed o)|]; by eexists _, [_].
  - destruct (opener win) as [o|]; [destruct (closed o)|]; by eexists _, [_].
  - exists (Throw e), []. rewrite app_nil_r. by destruct s.
Qed.

(** The function handed to [forEach] never throws: whatever the record
    does, [dispatch] completes; a local record with a function is called
    once with the data, no other record calls anything. *)
Lemma dispatch_spec e d x s :
  ∃ t, dispatch invoke win e d x s =
         (Return (), State (after_dispatch invoke d x (reg s)) (trace s ++ t) (fresh s))
       ∧ calls t = (λ f, (f, d)) <$> callbacks_of [x].
Proof.
  unfold dispatch, try_catch. destruct x as [o c|o p]; simpl.
  - destruct c; simpl;
      try (by eexists [_]).
    unfold call_callback. rewrite bind_run. simpl.
    unfold run. simpl. destruct (invoke f d (reg s)) as [g [v|]]; simpl.
    + exists [Call f d; WarnDispatch e (Local o (VFunction f source))].
      unfold emit. simpl. by rewrite <- app_assoc.
    + by exists [Call f d].
  - destruct (publishRemotely_spec (OfSubscription (Remote o p)) d s)
      as (out & t & -> & Ht).
    destruct out as [[]|err]; simpl.
    + by exists t.
    + exists (t ++ [WarnDispatch e (Remote o p)]).
      rewrite calls_app, Ht, app_assoc. done.
Qed.

Lemma callbacks_of_cons x b : callbacks_of (x :: b) = callbacks_of [x] ++ callbacks_of b.
Proof. unfold callbacks_of. by rewrite <- omap_app. Qed.

(** Iterating over a list of records dispatches each of them once, in
    order, and completes. *)
Lemma for_each_dispatch e d b s :
  ∃ t, for_each b (dispatch invoke win e d) s =
         (Return (), State (after_all invoke d b (reg s)) (trace s ++ t) (fresh s))
       ∧ calls t = (λ f, (f, d)) <$> callbacks_of b.
Proof.
  revert s. induction b as [|x b IH]; intros s.
  - exists []. rewrite app_nil_r. by destruct s.
  - cbn [for_each]. rewrite bind_run.
    destruct (dispatch_spec e d x s) as (t1 & -> & H1).
    destruct (IH (State (after_dispatch invoke d x (reg s)) (trace s ++ t1) (fresh s)))
      as (t2 & -> & H2).
    exists (t1 ++ t2). split.
    + simpl. by rewrite app_assoc.
    + by rewrite calls_app, H1, H2, (callbacks_of_cons x b), fmap_app.
Qed.

Lemma after_dispatch_prefix r n d x g :
  keeps_prefix invoke r n → n ≤ length (contents r g) →
  take n (contents r (after_dispatch invoke d x g)) = take n (contents r g).
Proof.
  intros H Hn. destruct x as [o [| | | | |f src| |]|]; simpl; auto.
Qed.

(** As long as the callbacks keep the records that the array held when the
    iteration began, [forEach] over the live array visits what an iteration
    over a copy of these records would visit. *)
Lemma forEach_from_snapshot e d r b :
  keeps_prefix invoke r (length b) →
  ∀ m k s, k + m = length b →
    take (length b) (contents r (reg s)) = b →
    forEach_from r k m (dispatch invoke win e d) s =
    for_each (drop k b) (dispatch invoke win e d) s.
Proof.
  intros Hkeep. induction m as [|m IH]; intros k s Hkm Hb.
  - rewrite drop_ge by lia. done.
  - assert (Hlen : length b ≤ length (contents r (reg s))).
    { rewrite <- Hb at 1. rewrite length_take. lia. }
    assert (Hk : k < length b) by lia.
    destruct (lookup_lt_is_Some_2 b k Hk) as [x Hx].
    rewrite (drop_S b x k Hx). cbn [for_each forEach_from].
    rewrite bind_run, read_array_run.
    assert (contents r (reg s) !! k = Some x) as ->.
    { rewrite <- Hx, <- Hb. by rewrite lookup_take_lt. }
    rewrite !bind_run.
    destruct (dispatch_spec e d x s) as (t & -> & _).
    apply IH; [lia|]. cbn [reg].
    rewrite after_dispatch_prefix; done.
Qed.

Lemma forEach_snapshot e d r s :
  keeps_prefix invoke r (length (contents r (reg s))) →
  forEach r (dispatch invoke win e d) s =
  for_each (contents r (reg s)) (dispatch invoke win e d) s.
Proof.
  intros Hkeep. unfold forEach. rewrite bind_run, read_array_run.
  rewrite (forEach_from_snapshot e d r (contents r (reg s))); try done.
  by rewrite firstn_all.
Qed.

End Dispatch.

(** ** [publish] *)

Section Publish.

Variable invoke : fid → value → registry → registry * option value.
Variable win : window.

Lemma publish_bucket eventName data s r b :
  bucket_at (to_string eventName) (reg s) r b →
  keeps_prefix invoke r (length b) →
  publish invoke win eventName data s =
  for_each b (dispatch invoke win eventName data) s.
Proof.
  intros [Hget Hheap] Hkeep.
  assert (Hb : contents r (reg s) = b) by (unfold contents; by rewrite Hheap).
  unfold publish. rewrite bind_run, read_event_run, Hget.
  rewrite forEach_snapshot; rewrite Hb; done.
Qed.

Lemma publish_snapshot_bucket eventName data s r b :
  bucket_at (to_string eventName) (reg s) r b →
  publish_snapshot invoke win eventName data s =
  for_each b (dispatch invoke win eventName data) s.
Proof.
  intros [Hget Hheap].
  unfold publish_snapshot.
  rewrite bind_run, read_event_run, Hget, bind_run, read_array_run.
  unfold contents. by rewrite Hheap.
Qed.

Lemma pure_keeps_prefix r n : callbacks_pure invoke → keeps_prefix invoke r n.
Proof. intros H f d g _. by rewrite H. Qed.

Lemma after_all_pure d b g : callbacks_pure invoke → after_all invoke d b g = g.
Proof.
  intros H. revert g. induction b as [|x b IH]; intros g; [done|].
  simpl. rewrite IH. destruct x as [o [| | | | |f src| |]|]; simpl; auto.
Qed.

Lemma forEach_from_returns e d r m k s :
  ∃ s', forEach_from r k m (dispatch invoke win e d) s = (Return (), s').
Proof.
  revert k s. induction m as [|m IH]; intros k s; [by eexists|].
  cbn [forEach_from]. rewrite bind_run, read_array_run, bind_run.
  destruct (contents r (reg s) !! k) as [x|].
  - destruct (dispatch_spec invoke win e d x s) as (t & -> & _). apply IH.
  - apply IH.
Qed.

Lemma after_dispatch_silenced d x g :
  after_dispatch (silenced invoke) d x g = after_dispatch invoke d x g.
Proof. by destruct x as [o [| | | | |f src| |]|]. Qed.

Lemma forEach_from_silenced e d r m k s s' :
  same_delivery s s' →
  same_delivery (forEach_from r k m (dispatch invoke win e d) s).2
                (forEach_from r k m (dispatch (silenced invoke) win e d) s').2.
Proof.
  revert k s s'. induction m as [|m IH]; intros k s s' Hs; [done|].
  cbn [forEach_from]. rewrite !bind_run, !read_array_run, !bind_run.
  destruct Hs as [Hreg Hcalls]. rewrite <- Hreg.
  destruct (contents r (reg s) !! k) as [x|].
  - destruct (dispatch_spec invoke win e d x s) as (t & -> & Ht).
    destruct (dispatch_spec (silenced invoke) win e d x s') as (t' & -> & Ht').
    apply IH. split; cbn [reg trace].
    + by rewrite after_dispatch_silenced, Hreg.
    + by rewrite !calls_app, Hcalls, Ht, Ht'.
  - by apply IH.
Qed.

(** C1.  On an event name that holds a bucket [publish] never throws,
    whatever the callbacks do.  A throw is caught where the record is
    dispatched and changes nothing to what follows: the registry and the
    callback invocations are those of the same callbacks with every throw
    replaced by a return.  So every local record of the bucket has its
    callback called with the published data, once and in order, provided
    the callbacks leave in place the records that the bucket held when
    [publish] began. *)
Theorem publish_isolates_failures eventName data s r :
  Obj.get (to_string eventName) (events (reg s)) = Some (Bucket r) →
  (∃ s', publish invoke win eventName data s = (Return (), s'))
  ∧ same_delivery (publish invoke win eventName data s).2
                  (publish (silenced invoke) win eventName data s).2
  ∧ (∀ b, heap (reg s) !! r = Some b →
          keeps_prefix invoke r (length b) →
          calls (trace (publish invoke win eventName data s).2) =
          calls (trace s) ++ ((λ f, (f, data)) <$> callbacks_of b)).
Proof.
  intros Hget. split; [|split].
  - unfold publish, forEach.
    rewrite bind_run, read_event_run, Hget, bind_run, read_array_run.
    apply forEach_from_returns.
  - unfold publish, forEach.
    rewrite !bind_run, !read_event_run, Hget, !bind_run, !read_array_run.
    by apply forEach_from_silenced.
  - intros b Hheap Hkeep.
    rewrite (publish_bucket _ _ _ r b) by done.
    destruct (for_each_dispatch invoke win eventName data b s) as (t & -> & Ht).
    cbn [snd trace]. by rewrite calls_app, Ht.
Qed.

(** C3, as amended.  [publish] iterates over the live array, with the
    length read when it begins.  When no callback removes or replaces one
    of the records the bucket held at that moment, the iteration is the one
    over a copy of the bucket: every record is dispatched once, in order. *)
Theorem publish_matches_snapshot eventName data s r b :
  bucket_at (to_string eventName) (reg s) r b →
  keeps_prefix invoke r (length b) →
  publish invoke win eventName data s = publish_snapshot invoke win eventName data s
  ∧ ∃ t, trace (publish invoke win eventName data s).2 = trace s ++ t
         ∧ calls t = (λ f, (f, data)) <$> callbacks_of b.
Proof.
  intros Hb Hkeep.
  rewrite (publish_bucket _ _ _ r b), (publish_snapshot_bucket _ _ _ r b) by done.
  split; [done|].
  destruct (for_each_dispatch invoke win eventName data b s) as (t & -> & Ht).
  by exists t.
Qed.

(** C10.  [publish] itself writes nothing to the registry: when the
    callbacks leave the registry as it is, the registry after [publish] is
    the registry before it, whether [publish] completes or throws; an event
    name for which [isSubscribedByWho] answered [null] still has that
    answer, so no bucket was created for it. *)
Theorem publish_frames_registry eventName data s :
  callbacks_pure invoke →
  reg (publish invoke win eventName data s).2 = reg s
  ∧ (isSubscribedByWho eventName (reg s) = None →
     isSubscribedByWho eventName (reg (publish invoke win eventName data s).2) = None).
Proof.
  intros Hpure.
  assert (H : reg (publish invoke win eventName data s).2 = reg s).
  { unfold publish. rewrite bind_run, read_event_run.
    destruct (Obj.get _ _) as [[r|b]|]; try done.
    rewrite forEach_snapshot by by apply pure_keeps_prefix.
    destruct (for_each_dispatch invoke win eventName data (contents r (reg s)) s)
      as (t & -> & _).
    simpl. by apply after_all_pure. }
  split; [done|]. by rewrite H.
Qed.

End Publish.

(** ** The [events] object *)

Module ObjFacts.
Import Obj.

Lemma get_own_set_own_eq k v o : get_own k (set_own k v o) = Some v.
Proof.
  induction o as [|[k' v'] o IH]; simpl.
  - by rewrite String.eqb_refl.
  - destruct (String.eqb k' k) eqn:E; simpl; rewrite E; done.
Qed.

Lemma get_own_set_own_ne k k' v o :
  k ≠ k' → get_own k' (set_own k v o) = get_own k' o.
Proof.
  intros Hne. induction o as [|[k0 v0] o IH]; simpl.
  - destruct (String.eqb k k') eqn:E; [|done].
    by apply String.eqb_eq in E.
  - destruct (String.eqb k0 k) eqn:E; simpl; [|by rewrite IH].
    apply String.eqb_eq in E as ->.
    destruct (String.eqb k k') eqn:E'; [|done].
    by apply String.eqb_eq in E'.
Qed.

Lemma set_own_same k v o : get_own k o = Some v → set_own k v o = o.
Proof.
  induction o as [|[k' v'] o IH]; simpl; [done|].
  destruct (String.eqb k' k) eqn:E.
  - by intros [= ->].
  - intros H. by rewrite IH.
Qed.

Lemma get_own_None k o : get_own k o = None ↔ k ∉ o.*1.
Proof.
  induction o as [|[k' v'] o IH]; simpl.
  - split; [|done]. intros _ H. by apply elem_of_nil in H.
  - destruct (String.eqb k' k) eqn:E.
    + apply String.eqb_eq in E as ->. split; [done|]. intros H. destruct H. left.
    + rewrite IH. apply String.eqb_neq in E. rewrite not_elem_of_cons.
      split; [intros H; split; [congruence|done] | by intros [_ H]].
Qed.

Lemma get_None k o : get k o = None → get_own k o = None ∧ object_prototype k = None.
Proof.
  unfold get. destruct (get_own k o); [done|].
  by destruct (object_prototype k).
Qed.

Lemma get_Bucket k r o : get k o = Some (Bucket r) → get_own k o = Some (Bucket r).
Proof.
  unfold get. destruct (get_own k o); [done|].
  by destruct (object_prototype k).
Qed.

(** Writing back the array that an event name already holds changes
    nothing. *)
Lemma set_same k r o : get k o = Some (Bucket r) → set k (Bucket r) o = o.
Proof.
  intros H%get_Bucket. unfold set.
  destruct (String.eqb k "__proto__"); [done|]. by apply set_own_same.
Qed.

Lemma get_set_new k v o : get k o = None → get k (set k v o) = Some v.
Proof.
  intros [_ Hp]%get_None. unfold set.
  destruct (String.eqb k "__proto__") eqn:E.
  - apply String.eqb_eq in E as ->. done.
  - unfold get. by rewrite get_own_set_own_eq.
Qed.

Lemma get_set_ne k k' v o : k ≠ k' → get k' (set k v o) = get k' o.
Proof.
  intros Hne. unfold set. destruct (String.eqb k "__proto__"); [done|].
  unfold get. by rewrite get_own_set_own_ne.
Qed.

Lemma get_set_own k v o : k ≠ "__proto__" → get k (set k v o) = Some v.
Proof.
  intros Hne. unfold set.
  destruct (String.eqb k "__proto__") eqn:E.
  - by apply String.eqb_eq in E.
  - unfold get. by rewrite get_own_set_own_eq.
Qed.

Lemma insert_by_index_perm n e l : (insert_by_index n e l).*2 ≡ₚ e :: l.*2.
Proof.
  induction l as [|[m e'] l IH]; simpl; [done|].
  destruct (N.ltb n m); simpl; [done|].
  rewrite IH. apply Permutation_swap.
Qed.

(** [Object.entries] lists every own property once. *)
Lemma entries_perm o : entries o ≡ₚ o.
Proof.
  unfold entries. induction o as [|e o IH]; simpl; [done|].
  destruct (array_index e.1).
  - rewrite insert_by_index_perm. simpl. by rewrite IH.
  - rewrite <- Permutation_middle. by rewrite IH.
Qed.

End ObjFacts.

(** ** [subscribe] *)

Lemma bucket_at_records k g r b : bucket_at k g r b → records k g = b.
Proof. intros [Hget Hheap]. unfold records, contents. by rewrite Hget, Hheap. Qed.

Lemma free_records k g : Obj.get k (events g) = None → records k g = [].
Proof. intros H. unfold records. by rewrite H. Qed.

(** The two statements of both branches of [subscribe]: on an event name
    that is free or holds an array, the record is appended to the records
    of that name, a new array being created for a free name. *)
Lemma ensure_push_spec k x s :
  free_or_bucket k (reg s) →
  ∃ g' r, (ensure_bucket k;; push k x) s = (Return (), State g' (trace s) (fresh s))
          ∧ bucket_at k g' r (records k (reg s) ++ [x]).
Proof.
  intros [Hfree|(r & b & Hget & Hheap)].
  - rewrite (free_records _ _ Hfree).
    eexists _, (length (heap (reg s))).
    unfold ensure_bucket, push. step. rewrite Hfree. step.
    rewrite (ObjFacts.get_set_new _ _ _ Hfree). step.
    split; [done|]. split; [by apply ObjFacts.get_set_new|].
    cbn [heap]. unfold contents. cbn [heap].
    rewrite list_lookup_middle by done. simpl.
    rewrite list_lookup_insert_eq; [done|]. rewrite length_app. simpl. lia.
  - rewrite (bucket_at_records k (reg s) r b) by done.
    eexists _, r.
    unfold ensure_bucket, push. step. rewrite Hget. step.
    rewrite (ObjFacts.set_same _ _ _ Hget), Hget. step.
    split; [done|]. split; [done|].
    unfold contents. cbn [heap]. rewrite Hheap. simpl.
    apply list_lookup_insert_eq. by eapply lookup_lt_Some.
Qed.

Lemma bucket_free_or_bucket k g r b : bucket_at k g r b → free_or_bucket k g.
Proof. intros H. right. by exists r, b. Qed.

Lemma state_eta s : State (reg s) (trace s) (fresh s) = s.
Proof. by destruct s. Qed.

(** One call of [subscribe] with a truthy event name: the record the
    arguments call for, if any, is appended to the records of the name. *)
Lemma subscribe_spec eventName observer callback s :
  truthy eventName = true →
  free_or_bucket (to_string eventName) (reg s) →
  ∃ g', subscribe eventName observer callback s = (Return (), State g' (trace s) (fresh s))
        ∧ free_or_bucket (to_string eventName) g'
        ∧ records (to_string eventName) g' =
          records (to_string eventName) (reg s) ++ option_list (record_of (observer, callback)).
Proof.
  intros He Hk. unfold subscribe, record_of. rewrite He.
  destruct (truthy callback && is_function callback).
  - destruct (ensure_push_spec _ (Local observer callback) s Hk) as (g' & r & -> & Hb).
    exists g'. split; [done|]. split; [exact (bucket_free_or_bucket _ _ _ _ Hb)|].
    exact (bucket_at_records _ _ _ _ Hb).
  - destruct (test_http observer).
    + destruct (ensure_push_spec _ (Remote observer callback) s Hk) as (g' & r & -> & Hb).
      exists g'. split; [done|]. split; [exact (bucket_free_or_bucket _ _ _ _ Hb)|].
      exact (bucket_at_records _ _ _ _ Hb).
    + exists (reg s). rewrite state_eta, app_nil_r. done.
Qed.

(** With a falsy event name [subscribe] only logs. *)
Lemma subscribe_falsy eventName observer callback s :
  truthy eventName = false →
  subscribe eventName observer callback s =
  (Return (), State (reg s) (trace s ++ [ErrorSubscribe (Obj.keys (events (reg s)))]) (fresh s)).
Proof. intros He. unfold subscribe. rewrite He. by step. Qed.

Lemma subscribe_all_spec eventName subs s :
  free_or_bucket (to_string eventName) (reg s) →
  ∃ g' t, subscribe_all eventName subs s = (Return (), State g' (trace s ++ t) (fresh s))
          ∧ free_or_bucket (to_string eventName) g'
          ∧ records (to_string eventName) g' =
            records (to_string eventName) (reg s) ++ registered eventName subs
          ∧ calls t = [].
Proof.
  unfold subscribe_all, registered. revert s.
  induction subs as [|[o c] subs IH]; intros s Hk.
  - exists (reg s), []. rewrite !app_nil_r, state_eta.
    destruct (truthy eventName); simpl; by rewrite app_nil_r.
  - cbn [for_each]. rewrite bind_run.
    destruct (truthy eventName) eqn:He.
    + destruct (subscribe_spec eventName o c s He Hk) as (g1 & -> & Hk1 & Hr1).
      destruct (IH (State g1 (trace s) (fresh s)) Hk1) as (g2 & t & -> & Hk2 & Hr2 & Ht).
      exists g2, t. split; [done|]. split; [done|]. split; [|done].
      cbn [reg] in Hr2. rewrite Hr2, Hr1, <- app_assoc. f_equal.
      cbn [omap list_omap]. by destruct (record_of (o, c)).
    + rewrite subscribe_falsy by done.
      destruct (IH (State (reg s) (trace s ++ [ErrorSubscribe (Obj.keys (events (reg s)))])
                      (fresh s)) Hk) as (g2 & t & -> & Hk2 & Hr2 & Ht).
      exists g2, (ErrorSubscribe (Obj.keys (events (reg s))) :: t).
      cbn [trace]. rewrite <- app_assoc. done.
Qed.

Lemma callbacks_of_app b1 b2 : callbacks_of (b1 ++ b2) = callbacks_of b1 ++ callbacks_of b2.
Proof. apply omap_app. Qed.

Lemma callbacks_of_registered eventName subs :
  callbacks_of (registered eventName subs) =
  if truthy eventName then callable_ids subs else [].
Proof.
  unfold registered. destruct (truthy eventName); [|done].
  unfold callbacks_of, callable_ids.
  induction subs as [|[o c] subs IH]; [done|].
  cbn [omap list_omap record_of]. simpl snd.
  destruct c as [| |[]|[|z]|s| | |]; simpl; try destruct (Z.eqb z 0); try destruct (String.eqb s ""); simpl;
    try destruct (test_http o); simpl;
    first [exact IH | f_equal; exact IH].
Qed.

Section Order.

Variable invoke : fid → value → registry → registry * option value.
Variable win : window.

Lemma publish_records eventName data s :
  free_or_bucket (to_string eventName) (reg s) →
  keeps_records invoke →
  ∃ g t, publish invoke win eventName data s = (Return (), State g (trace s ++ t) (fresh s))
         ∧ calls t = (λ f, (f, data)) <$> callbacks_of (records (to_string eventName) (reg s)).
Proof.
  intros [Hfree|(r & b & Hb)] Hkeep.
  - exists (reg s), []. rewrite (free_records _ _ Hfree), app_nil_r, state_eta.
    unfold publish. step. by rewrite Hfree.
  - rewrite (bucket_at_records _ _ r b) by done.
    rewrite (publish_bucket _ _ _ _ _ r b) by done.
    destruct (for_each_dispatch invoke win eventName data b s) as (t & -> & Ht).
    by eexists _, t.
Qed.

End Order.

(** C4, as amended.  After any sequence of [subscribe] calls to one event
    name (the name free so far, or holding a bucket), [publish] on that
    name calls the callbacks of the records the bucket held before, then
    the function of every call that passed one: each once per call, in the
    order of the calls, so a callback subscribed twice is called twice.
    This holds for callbacks that leave the records of the arrays in place
    while they are dispatched; they may throw. *)
Theorem publish_in_subscription_order
    (invoke : fid → value → registry → registry * option value) (win : window)
    eventName subs data s :
  free_or_bucket (to_string eventName) (reg s) →
  keeps_records invoke →
  ∃ s1 s2 t,
    subscribe_all eventName subs s = (Return (), s1)
    ∧ records (to_string eventName) (reg s1) =
      records (to_string eventName) (reg s) ++ registered eventName subs
    ∧ publish invoke win eventName data s1 = (Return (), s2)
    ∧ trace s2 = trace s1 ++ t
    ∧ calls t = (λ f, (f, data)) <$>
        (callbacks_of (records (to_string eventName) (reg s))
         ++ if truthy eventName then callable_ids subs else []).
Proof.
  intros Hk Hkeep.
  destruct (subscribe_all_spec eventName subs s Hk) as (g1 & t1 & Hsub & Hk1 & Hr1 & _).
  destruct (publish_records invoke win eventName data
              (State g1 (trace s ++ t1) (fresh s)) Hk1 Hkeep) as (g2 & t & Hpub & Ht).
  eexists _, _, t. split; [exact Hsub|]. split; [exact Hr1|].
  split; [exact Hpub|]. split; [done|].
  cbn [reg] in Ht. by rewrite Ht, Hr1, callbacks_of_app, callbacks_of_registered.
Qed.

(** A local record with a function: [dispatch] calls the function and
    does nothing else, but for the warning when the function throws. *)
Lemma dispatch_local invoke win e d o f src s :
  ∃ t, dispatch invoke win e d (Local o (VFunction f src)) s =
         (Return (), State (invoke f d (reg s)).1 (trace s ++ t) (fresh s))
       ∧ calls t = [(f, d)]
       ∧ Forall (λ x, is_remote x = false) t.
Proof.
  unfold dispatch, try_catch. cbn [has_payload call_callback].
  rewrite bind_run, emit_run. unfold run. cbn [reg trace fresh].
  destruct (invoke f d (reg s)) as [g [v|]]; cbn [fst].
  - exists [Call f d; WarnDispatch e (Local o (VFunction f src))].
    rewrite emit_run. cbn [reg trace fresh]. rewrite <- app_assoc.
    split; [done|]. split; [done|]. by repeat constructor.
  - exists [Call f d]. split; [done|]. split; [done|]. by repeat constructor.
Qed.

(** What the remote bridge does to the outside carries what it was
    handed. *)
Lemma publishRemotely_routes win info d s :
  ∃ o t, publishRemotely win info d s = (o, State (reg s) (trace s ++ t) (fresh s))
         ∧ Forall (λ x, remote_info_of x = Some info) t.
Proof.
  unfold publishRemotely.
  destruct (find_child _ _ _ _) as [[[i f]|]|e]; simpl.
  - destruct (postMessage f);
      [eexists _, [_]; split; [reflexivity|]; by repeat constructor|].
    destruct (opener win) as [o|]; [destruct (closed o)|];
      eexists _, [_]; (split; [reflexivity|]); by repeat constructor.
  - destruct (opener win) as [o|]; [destruct (closed o)|];
      eexists _, [_]; (split; [reflexivity|]); by repeat constructor.
  - exists (Throw e), []. rewrite app_nil_r. split; [by destruct s|done].
Qed.

(** Whatever the record, the remote bridge is reached from [dispatch]
    with a record that has a payload only. *)
Lemma dispatch_routes invoke win e d x s :
  ∃ s' t, dispatch invoke win e d x s = (Return (), s')
          ∧ trace s' = trace s ++ t
          ∧ Forall routes_payload_only t.
Proof.
  unfold dispatch, try_catch. destruct (has_payload x) eqn:Hx.
  - destruct (publishRemotely_routes win (OfSubscription x) d s) as (o & t & Hrun & Hto).
    assert (Ht : Forall routes_payload_only t).
    { eapply Forall_impl; [exact Hto|]. intros ef Hef y Hy.
      rewrite Hef in Hy. by injection Hy as <-. }
    rewrite Hrun. destruct o as [[]|err].
    + by eexists _, t.
    + rewrite emit_run. cbn [reg trace fresh]. eexists _, (t ++ [_]).
      split; [done|]. split; [cbn [trace]; by rewrite app_assoc|].
      apply Forall_app. split; [done|]. by repeat constructor.
  - destruct x as [o c|o c]; [|done]. cbn [call_callback].
    destruct c as [| | | | |f src| |];
      try (cbn [throw]; rewrite emit_run; eexists _, [_]; split; [done|];
           split; [done|]; by repeat constructor).
    rewrite bind_run, emit_run. unfold run. cbn [reg trace fresh].
    destruct (invoke f d (reg s)) as [g [v|]].
    + rewrite emit_run. cbn [reg trace fresh]. eexists _, [_; _].
      split; [done|]. split; [cbn [trace]; by rewrite <- app_assoc|].
      by repeat constructor.
    + eexists _, [_]. split; [done|]. split; [done|]. by repeat constructor.
Qed.

Lemma forEach_from_routes invoke win e d r n k s :
  ∃ s' t, forEach_from r k n (dispatch invoke win e d) s = (Return (), s')
          ∧ trace s' = trace s ++ t
          ∧ Forall routes_payload_only t.
Proof.
  revert k s. induction n as [|n IH]; intros k s.
  - exists s, []. by rewrite app_nil_r.
  - cbn [forEach_from]. rewrite bind_run, read_array_run.
    destruct (contents r (reg s) !! k) as [x|]; rewrite bind_run.
    + destruct (dispatch_routes invoke win e d x s) as (s1 & t1 & -> & Ht1 & H1).
      destruct (IH (S k) s1) as (s2 & t2 & -> & Ht2 & H2).
      exists s2, (t1 ++ t2). split; [done|].
      split; [by rewrite Ht2, Ht1, app_assoc|]. by apply Forall_app.
    + cbn [mret M_ret]. apply IH.
Qed.

(** [publish] hands to the remote bridge records with a payload only. *)
Lemma publish_routes invoke win e d s :
  ∃ t, trace (publish invoke win e d s).2 = trace s ++ t
       ∧ Forall routes_payload_only t.
Proof.
  unfold publish. rewrite bind_run, read_event_run.
  destruct (Obj.get (to_string e) (events (reg s))) as [[r|b]|].
  - unfold forEach. rewrite bind_run, read_array_run.
    destruct (forEach_from_routes invoke win e d r (length (contents r (reg s))) 0 s)
      as (s' & t & -> & Ht & H).
    by exists t.
  - exists []. by rewrite app_nil_r.
  - exists []. by rewrite app_nil_r.
Qed.

(** [publish] on a bucket that holds one record, local and with a
    function: the function is called, whatever it does. *)
Lemma publish_single invoke win eventName data o f src s r :
  bucket_at (to_string eventName) (reg s) r [Local o (VFunction f src)] →
  ∃ s' t, publish invoke win eventName data s = (Return (), s')
          ∧ trace s' = trace s ++ t
          ∧ calls t = [(f, data)].
Proof.
  intros [Hget Hheap].
  assert (Hc : contents r (reg s) = [Local o (VFunction f src)]).
  { unfold contents. by rewrite Hheap. }
  unfold publish. rewrite bind_run, read_event_run, Hget.
  unfold forEach. rewrite bind_run, read_array_run, Hc.
  cbn [length forEach_from]. rewrite !bind_run, read_array_run, Hc.
  cbn [lookup list_lookup]. rewrite bind_run.
  destruct (dispatch_local invoke win eventName data o f src s) as (t & -> & Ht & _).
  by eexists _, t.
Qed.

(** C9.  With a truthy event name, a function as third argument and an
    observer that matches [/^http/i], [subscribe] takes its first branch:
    what it runs is the registration of a local record, which holds the
    function and no payload, where the same observer without a function
    gets a remote record.  On an event name that is free or holds a bucket
    the record becomes the last of the bucket.  Dispatching the record
    calls the function with the data and sends nothing over the remote
    bridge.  [publish] on that event name then calls the callbacks of the
    records that were there, and the function with the data after them: as
    the only record of the bucket whatever the callbacks do, and after
    others as long as these leave the records of the arrays in place.
    Whatever the state and the callbacks, no [publish] hands the record to
    the remote bridge. *)
Theorem subscribe_callable_first eventName observer f src :
  truthy eventName = true →
  test_http observer = true →
  (∀ s, subscribe eventName observer (VFunction f src) s =
        (ensure_bucket (to_string eventName);;
         push (to_string eventName) (Local observer (VFunction f src))) s)
  ∧ (∀ c s, is_function c = false →
        subscribe eventName observer c s =
        (ensure_bucket (to_string eventName);;
         push (to_string eventName) (Remote observer c)) s)
  ∧ has_payload (Local observer (VFunction f src)) = false
  ∧ (∀ s, free_or_bucket (to_string eventName) (reg s) →
        ∃ g' r, subscribe eventName observer (VFunction f src) s =
                  (Return (), State g' (trace s) (fresh s))
                ∧ bucket_at (to_string eventName) g' r
                    (records (to_string eventName) (reg s)
                     ++ [Local observer (VFunction f src)]))
  ∧ (∀ invoke win e d s,
        ∃ t, dispatch invoke win e d (Local observer (VFunction f src)) s =
               (Return (), State (invoke f d (reg s)).1 (trace s ++ t) (fresh s))
             ∧ calls t = [(f, d)]
             ∧ Forall (λ x, is_remote x = false) t)
  ∧ (∀ invoke win data s,
        free_or_bucket (to_string eventName) (reg s) →
        records (to_string eventName) (reg s) = [] ∨ keeps_records invoke →
        ∃ s1 s2 t,
          subscribe eventName observer (VFunction f src) s = (Return (), s1)
          ∧ publish invoke win eventName data s1 = (Return (), s2)
          ∧ trace s2 = trace s1 ++ t
          ∧ calls t =
            ((λ g, (g, data)) <$> callbacks_of (records (to_string eventName) (reg s)))
            ++ [(f, data)])
  ∧ (∀ invoke win e data s,
        ∃ t, trace (publish invoke win e data s).2 = trace s ++ t
             ∧ Forall (λ x, remote_info_of x ≠
                            Some (OfSubscription (Local observer (VFunction f src)))) t).
Proof.
  intros He Ho. split_and!.
  - intros s. unfold subscribe. by rewrite He.
  - intros c s Hc. unfold subscribe. rewrite He, Hc, andb_false_r, Ho. done.
  - done.
  - intros s Hk. unfold subscribe. rewrite He. cbn [truthy is_function andb].
    by apply ensure_push_spec.
  - intros invoke win e d s. apply dispatch_local.
  - intros invoke win data s Hk Hcase.
    unfold subscribe. rewrite He. cbn [truthy is_function andb].
    destruct (ensure_push_spec _ (Local observer (VFunction f src)) s Hk)
      as (g1 & r & Hrun & Hb).
    destruct Hcase as [Hempty|Hkeep].
    + rewrite Hempty in Hb |- *. cbn [app] in Hb.
      destruct (publish_single invoke win eventName data observer f src
                  (State g1 (trace s) (fresh s)) r Hb) as (s2 & t & Hpub & Ht & Hc).
      by exists (State g1 (trace s) (fresh s)), s2, t.
    + destruct (publish_records invoke win eventName data
                  (State g1 (trace s) (fresh s))
                  (bucket_free_or_bucket _ _ _ _ Hb) Hkeep) as (g2 & t & Hpub & Ht).
      eexists _, _, t. split; [exact Hrun|]. split; [exact Hpub|]. split; [done|].
      cbn [reg] in Ht. rewrite Ht, (bucket_at_records _ _ _ _ Hb), callbacks_of_app.
      by rewrite fmap_app.
  - intros invoke win e data s.
    destruct (publish_routes invoke win e data s) as (t & Ht & H).
    exists t. split; [exact Ht|].
    eapply Forall_impl; [exact H|]. intros x Hx Heq. by specialize (Hx _ Heq).
Qed.

(** ** [unsubscribe] *)

Lemma count_observer_cons observer x b :
  count_observer observer (x :: b) =
  (if strict_eq (observer_of x) observer then 1 else 0) + count_observer observer b.
Proof.
  unfold count_observer. rewrite filter_cons.
  destruct (decide _) as [->|H]; [done|].
  by destruct (strict_eq (observer_of x) observer).
Qed.

Lemma others_cons observer x b :
  others observer (x :: b) =
  if strict_eq (observer_of x) observer then others observer b
  else x :: others observer b.
Proof.
  unfold others. rewrite filter_cons.
  destruct (decide _) as [->|H]; [done|].
  by destruct (strict_eq (observer_of x) observer).
Qed.

Lemma splice_first_split observer b1 x b2 :
  count_observer observer b1 = 0 →
  strict_eq (observer_of x) observer = true →
  splice_first observer (b1 ++ x :: b2) = b1 ++ b2.
Proof.
  intros H1 Hx. induction b1 as [|y b1 IH]; simpl.
  - by rewrite Hx.
  - rewrite count_observer_cons in H1.
    destruct (strict_eq (observer_of y) observer); [done|].
    by rewrite IH.
Qed.

Lemma splice_first_count observer b :
  count_observer observer (splice_first observer b) = pred (count_observer observer b).
Proof.
  induction b as [|y b IH]; [done|]. simpl.
  rewrite count_observer_cons.
  destruct (strict_eq (observer_of y) observer) eqn:E; [done|].
  by rewrite count_observer_cons, E.
Qed.

Lemma splice_first_others observer b :
  others observer (splice_first observer b) = others observer b.
Proof.
  induction b as [|y b IH]; [done|]. simpl.
  rewrite others_cons.
  destruct (strict_eq (observer_of y) observer) eqn:E; [done|].
  by rewrite others_cons, E, IH.
Qed.

Lemma splice_first_absent observer b :
  count_observer observer b = 0 → splice_first observer b = b.
Proof.
  induction b as [|y b IH]; [done|]. simpl.
  rewrite count_observer_cons.
  destruct (strict_eq (observer_of y) observer); [done|].
  intros H. by rewrite IH.
Qed.

(** C5.  With a truthy event name that holds a bucket,
    [unsubscribe] completes, logs nothing and changes the array of the
    bucket in place, and nothing else: the first record of the observer is
    taken out and the loop stops there, so the observer has one record
    fewer (one left of two), and the records of the other observers are
    the same, in the same order.  A bucket without a record of the observer
    stays as it is. *)
Theorem unsubscribe_first_match eventName observer s r b :
  truthy eventName = true →
  bucket_at (to_string eventName) (reg s) r b →
  unsubscribe eventName observer s =
    (Return (),
     State (Registry (events (reg s)) (<[r := splice_first observer b]> (heap (reg s))))
       (trace s) (fresh s))
  ∧ (∀ b1 x b2, b = b1 ++ x :: b2 →
       count_observer observer b1 = 0 →
       strict_eq (observer_of x) observer = true →
       splice_first observer b = b1 ++ b2)
  ∧ count_observer observer (splice_first observer b) = pred (count_observer observer b)
  ∧ others observer (splice_first observer b) = others observer b
  ∧ (count_observer observer b = 0 → splice_first observer b = b).
Proof.
  intros He [Hget Hheap]. split; [|split; [|split; [|split]]].
  - unfold unsubscribe, Obj.has. rewrite bind_run. cbn [get_registry].
    rewrite He, Hget. cbn [andb]. step.
    unfold contents. by rewrite Hheap.
  - intros b1 x b2 -> H1 Hx. by apply splice_first_split.
  - apply splice_first_count.
  - apply splice_first_others.
  - apply splice_first_absent.
Qed.

(** ** [unsubscribeObserver] *)

Lemma unsubscribeObserver_truthy observer s :
  truthy observer = true →
  unsubscribeObserver observer s =
  for_each (Obj.entries (events (reg s))) (filter_entry observer) s.
Proof. intros H. unfold unsubscribeObserver. by rewrite H. Qed.

Lemma others_count observer b : count_observer observer (others observer b) = 0.
Proof.
  induction b as [|x b IH]; [done|]. rewrite others_cons.
  destruct (strict_eq (observer_of x) observer) eqn:E; [done|].
  by rewrite count_observer_cons, E.
Qed.

Lemma get_own_elem_of k v o : Obj.get_own k o = Some v → (k, v) ∈ o.
Proof.
  induction o as [|[k' v'] o IH]; simpl; [done|].
  destruct (String.eqb k' k) eqn:E.
  - apply String.eqb_eq in E as ->. intros [= ->]. left.
  - intros H. right. by apply IH.
Qed.

(** The loop over a list of entries with distinct names, each holding an
    array: every name is bound to a new array with the records of the other
    observers; the arrays that existed are not written to. *)
Lemma filter_entries_spec observer es :
  ∀ s,
    NoDup es.*1 → "__proto__" ∉ es.*1 →
    (∀ k v, (k, v) ∈ es → ∃ r b, v = Bucket r ∧ heap (reg s) !! r = Some b) →
    ∃ g', for_each es (filter_entry observer) s = (Return (), State g' (trace s) (fresh s))
          ∧ heap (reg s) `prefix_of` heap g'
          ∧ (∀ k, k ∉ es.*1 → Obj.get k (events g') = Obj.get k (events (reg s)))
          ∧ (∀ k r b, (k, Bucket r) ∈ es → heap (reg s) !! r = Some b →
                      ∃ r', bucket_at k g' r' (others observer b)).
Proof.
  induction es as [|[k v] es IH]; intros s Hnd Hproto Hvalid.
  - exists (reg s). rewrite state_eta. split; [done|]. split; [done|].
    split; [done|]. intros k r b H. by apply elem_of_nil in H.
  - apply NoDup_cons in Hnd as [Hk Hnd].
    apply not_elem_of_cons in Hproto as [Hkp Hproto].
    destruct (Hvalid k v) as (r & b & -> & Hb); [left|].
    cbn [for_each filter_entry]. step.
    assert (Hc : contents r (reg s) = b) by (unfold contents; by rewrite Hb).
    rewrite Hc.
    set (s1 := State _ _ _).
    destruct (IH s1) as (g' & -> & Hpre & Hout & Hin); [done|done| |].
    { intros k' v' Hin. destruct (Hvalid k' v') as (r' & b' & -> & Hb'); [by right|].
      exists r', b'. split; [done|]. subst s1. cbn [reg heap].
      by apply lookup_app_l_Some. }
    exists g'. subst s1. cbn [reg heap events trace fresh] in *.
    split; [done|]. split; [|split].
    + etrans; [|exact Hpre]. by apply prefix_app_r.
    + intros k' [Hne Hk']%not_elem_of_cons.
      rewrite Hout by done. by apply ObjFacts.get_set_ne.
    + intros k' r' b' [[= -> ->]|Hin']%elem_of_cons Hb'.
      * assert (b' = b) as -> by congruence.
        exists (length (heap (reg s))). split.
        -- rewrite Hout by done. apply ObjFacts.get_set_own. by intros ->.
        -- eapply prefix_lookup_Some; [|exact Hpre].
           by apply list_lookup_middle.
      * apply (Hin k' r' b'); [done|]. by apply lookup_app_l_Some.
Qed.

(** C6.  With a truthy observer, on a registry whose event
    names each hold a bucket, [unsubscribeObserver] completes, logs nothing
    and gives every event name a bucket with the records it held of the
    other observers, in their order: no record of the observer is left in
    any bucket, and no bucket is created for a name that had none. *)
Theorem unsubscribeObserver_everywhere observer s :
  truthy observer = true →
  well_formed (reg s) →
  ∃ g', unsubscribeObserver observer s = (Return (), State g' (trace s) (fresh s))
        ∧ (∀ k r b, bucket_at k (reg s) r b →
             ∃ r', bucket_at k g' r' (others observer b)
                   ∧ count_observer observer (others observer b) = 0)
        ∧ (∀ k, Obj.get k (events (reg s)) = None → Obj.get k (events g') = None).
Proof.
  intros Ho (Hnd & Hproto & Hall).
  rewrite unsubscribeObserver_truthy by done.
  pose proof (ObjFacts.entries_perm (events (reg s))) as Hperm.
  destruct (filter_entries_spec observer (Obj.entries (events (reg s))) s)
    as (g' & -> & _ & Hout & Hin).
  - by rewrite Hperm.
  - by rewrite Hperm.
  - intros k v Hkv. rewrite Hperm in Hkv. by apply (Hall k v).
  - exists g'. split; [done|]. split.
    + intros k r b [Hget Hb].
      destruct (Hin k r b) as (r' & Hr'); [|done|].
      * rewrite Hperm. by apply get_own_elem_of, ObjFacts.get_Bucket.
      * exists r'. split; [done|]. apply others_count.
    + intros k Hk. rewrite Hout; [done|]. rewrite Hperm.
      apply ObjFacts.get_own_None. by apply ObjFacts.get_None.
Qed.

(** ** [subscribeMultiple] *)

(** C7, as amended.  When the names are not a non-empty array or the
    handler is not callable, [subscribeMultiple] completes and leaves the
    registry as it is.  It logs its diagnostic only when the names are not
    an array at all: an empty array and a handler that is not callable are
    passed over in silence. *)
Theorem subscribeMultiple_rejects eventNames observer callback s :
  meets_requirements eventNames callback = false →
  subscribeMultiple eventNames observer callback s =
  (Return (),
   State (reg s)
     (trace s ++ if is_array eventNames then []
                 else [ErrorSubscribeMultiple (Obj.keys (events (reg s)))])
     (fresh s)).
Proof.
  intros H. unfold subscribeMultiple.
  destruct eventNames as [| | | | | |a [|name names]|]; cbn [is_array];
    try (by step).
  - destruct (truthy callback && is_function callback);
      cbn [for_each]; by rewrite app_nil_r, state_eta.
  - cbn [meets_requirements] in H. rewrite H. by rewrite app_nil_r, state_eta.
Qed.

(** ** Event names that the registry does not know *)

(** An event name that [events] neither has nor inherits: [publish] and
    [unsubscribe] complete and leave the registry as it is, the second with
    a diagnostic, and [isSubscribedByWho] answers [null]; a known name with
    an empty bucket answers with that bucket. *)
Lemma unknown_event_safe invoke win eventName s :
  Obj.get (to_string eventName) (events (reg s)) = None →
  (∀ data, publish invoke win eventName data s = (Return (), s))
  ∧ (∀ observer,
       unsubscribe eventName observer s =
       (Return (), State (reg s) (trace s ++ [ErrorUnsubscribe (Obj.keys (events (reg s)))])
                     (fresh s)))
  ∧ isSubscribedByWho eventName (reg s) = None.
Proof.
  intros H. repeat split.
  - intros data. unfold publish. step. by rewrite H.
  - intros observer. unfold unsubscribe, Obj.has. rewrite bind_run. cbn [get_registry].
    rewrite H, andb_false_r. by step.
  - unfold isSubscribedByWho, Obj.has. by rewrite H.
Qed.

Lemma empty_bucket_known eventName g r :
  bucket_at (to_string eventName) g r [] →
  isSubscribedByWho eventName g = Some (Bucket r) ∧ contents r g = [].
Proof.
  intros [Hget Hheap]. unfold isSubscribedByWho, Obj.has, contents.
  by rewrite Hget, Hheap.
Qed.

(** C8.  The name [constructor] has never been subscribed to, yet
    [events] inherits a property of that name from [Object.prototype]: on
    the registry as the module creates it, [isSubscribedByWho] answers with
    the built-in function instead of [null], and [publish] and
    [unsubscribe] throw a [TypeError]. *)
Theorem inherited_name_unsafe invoke win data observer :
  Obj.get_own "constructor" (events initial_registry) = None
  ∧ isSubscribedByWho (VString "constructor") initial_registry =
    Some (Inherited (BuiltinFunction "Object" 1))
  ∧ publish invoke win (VString "constructor") data initial =
    (Throw (TypeError "this.events[eventName].forEach is not a function"), initial)
  ∧ unsubscribe (VString "constructor") observer initial =
    (Throw (TypeError "this.events[eventName][i] is undefined"), initial).
Proof. repeat split. Qed.

(** ** The message listener *)

(** For every trusted message that is a plain object without [type], with
    a method path that contains "pubsub": when the last segment of the path
    is [unsubscribeObserver] or [unsubscribe], what the listener runs is a
    call of [subscribe]. *)
Lemma listener_unsubscribe_cases invoke win resolver a props path s :
  own_prop "type" props = None →
  own_prop "constructor" props = None →
  own_prop "method" props = Some (VString path) →
  Str.contains_ci "pubsub" path = true →
  (Str.last_segment path = "unsubscribeObserver" →
     on_message invoke win resolver (MessageEvent true (VObject a props)) s =
     subscribe (field "observer" (VObject a props)) VUndefined VUndefined s)
  ∧ (Str.last_segment path = "unsubscribe" →
     on_message invoke win resolver (MessageEvent true (VObject a props)) s =
     subscribe (field "args" (VObject a props)) (field "observer" (VObject a props))
       VUndefined s).
Proof.
  intros Htype Hctor Hmethod Hpubsub.
  assert (H1 : in_operator "type" (VObject a props) = Return false).
  { cbn [in_operator has_field]. by rewrite Htype. }
  assert (H2 : constructor_is_Object (VObject a props) = Return true).
  { cbn [constructor_is_Object]. by rewrite Hctor. }
  assert (H3 : has_field "method" (VObject a props) = true).
  { cbn [has_field]. by rewrite Hmethod. }
  assert (H4 : field "method" (VObject a props) = VString path).
  { cbn [field]. by rewrite Hmethod. }
  unfold on_message. cbn [isTrusted data].
  rewrite bind_run. unfold lift. rewrite H1. cbn beta iota.
  rewrite bind_run. cbn [mret M_ret].
  rewrite bind_run, H2, H3, H4. cbn beta iota.
  rewrite bind_run. cbn [test_subject stringifies to_string]. rewrite Hpubsub.
  split; intros ->; reflexivity.
Qed.

(** C2.  A trusted message whose method is [app.pubsub.unsubscribeObserver]
    removes nothing: the listener calls [subscribe] with the address of the
    sender as event name and no other argument, which does nothing, where
    [unsubscribeObserver("z")] would have emptied both buckets.  A message
    whose method is [app.pubsub.unsubscribe] does not reach [unsubscribe]
    either: the listener calls [subscribe], which adds a remote record for
    the sender to the bucket named by [args]. *)
Theorem listener_never_unsubscribes invoke win resolver :
  z_on_two = ((subscribe (VString "default") (VString "z") (handler 0);;
               subscribe (VString "login") (VString "z") (handler 0)) initial).2
  ∧ on_message invoke win resolver (MessageEvent true message_unsubscribeObserver) z_on_two =
    (Return (), z_on_two)
  ∧ records "default" (reg z_on_two) = [Local (VString "z") (handler 0)]
  ∧ records "login" (reg z_on_two) = [Local (VString "z") (handler 0)]
  ∧ records "default" (reg (unsubscribeObserver (VString "z") z_on_two).2) = []
  ∧ records "login" (reg (unsubscribeObserver (VString "z") z_on_two).2) = []
  ∧ records "login"
      (reg (on_message invoke win resolver (MessageEvent true message_unsubscribe) z_on_two).2) =
    [Local (VString "z") (handler 0); Remote (VString "https://x") VUndefined]
  ∧ records "login" (reg (unsubscribe (VString "login") (VString "z") z_on_two).2) = [].
Proof. repeat split. Qed.

(** ** Callbacks that change the registry *)

Lemma two_on_evt_reached :
  two_on_evt = ((subscribe (VString "evt") (VString "w") (handler 0);;
                 subscribe (VString "evt") (VString "v") (handler 1)) initial).2.
Proof. reflexivity. Qed.

Lemma contents_alloc r l g :
  r < length (heap g) →
  contents r (Registry (events g) (heap g ++ [l])) = contents r g.
Proof. intros H. unfold contents. cbn [heap]. by rewrite lookup_app_l. Qed.

Lemma contents_alloc_nil r g :
  contents r (Registry (events g) (heap g ++ [[]])) = contents r g.
Proof.
  destruct (decide (r < length (heap g))) as [H|H]; [by apply contents_alloc|].
  unfold contents. cbn [heap].
  rewrite (lookup_ge_None_2 (heap g)) by lia.
  rewrite lookup_app_r by lia.
  by destruct (r - length (heap g)) as [|[|]].
Qed.

Lemma ensure_bucket_contents k r s :
  ∃ s', ensure_bucket k s = (Return (), s')
        ∧ contents r (reg s') = contents r (reg s)
        ∧ trace s' = trace s.
Proof.
  unfold ensure_bucket. step. destruct (Obj.get k (events (reg s))) as [v|]; step.
  - by eexists.
  - eexists. split; [done|]. split; [|done]. cbn [reg].
    unfold contents. cbn [heap]. apply (contents_alloc_nil r (reg s)).
Qed.

(** [push] appends: the records that an array holds stay where they
    are. *)
Lemma push_keeps_prefix k x r n s :
  n ≤ length (contents r (reg s)) →
  take n (contents r (reg (push k x s).2)) = take n (contents r (reg s)).
Proof.
  intros Hn. unfold push. step.
  destruct (Obj.get k (events (reg s))) as [[r'|b]|]; [|done..]. step.
  cbn [snd reg]. unfold contents in *. cbn [heap].
  destruct (decide (r = r')) as [<-|Hne].
  - destruct (heap (reg s) !! r) as [l|] eqn:E; simpl in *.
    + rewrite list_lookup_insert_eq by by eapply lookup_lt_Some.
      simpl. by rewrite take_app_le.
    + rewrite list_insert_ge by by apply lookup_ge_None. by rewrite E.
  - by rewrite list_lookup_insert_ne.
Qed.

Lemma subscribe_keeps_prefix eventName observer callback r n s :
  n ≤ length (contents r (reg s)) →
  take n (contents r (reg (subscribe eventName observer callback s).2)) =
  take n (contents r (reg s)).
Proof.
  intros Hn.
  assert (Hboth : ∀ x,
    take n (contents r (reg ((ensure_bucket (to_string eventName);;
                              push (to_string eventName) x) s).2)) =
    take n (contents r (reg s))).
  { intros x. rewrite bind_run.
    destruct (ensure_bucket_contents (to_string eventName) r s) as (s' & -> & Hc & _).
    rewrite <- Hc. apply push_keeps_prefix. by rewrite Hc. }
  unfold subscribe. destruct (truthy eventName); [|by step].
  destruct (truthy callback && is_function callback); [apply Hboth|].
  destruct (test_http observer); [apply Hboth|done].
Qed.

(** [unsubscribeObserver] writes to no array: it creates new ones. *)
Lemma filter_entries_heap observer es s :
  heap (reg s) `prefix_of` heap (reg (for_each es (filter_entry observer) s).2).
Proof.
  revert s. induction es as [|[k v] es IH]; intros s; [done|].
  cbn [for_each filter_entry]. destruct v as [r|b]; [|done]. step.
  etrans; [|apply IH]. cbn [reg heap]. by apply prefix_app_r.
Qed.

Lemma prefix_keeps_contents r n g g' :
  heap g `prefix_of` heap g' →
  n ≤ length (contents r g) →
  take n (contents r g') = take n (contents r g).
Proof.
  intros Hpre Hn. unfold contents, aref in *.
  destruct (heap g !! r) as [l|] eqn:E.
  - by rewrite (prefix_lookup_Some _ _ _ _ E Hpre).
  - simpl in Hn. assert (n = 0) as -> by lia. done.
Qed.

Lemma unsubscribeObserver_keeps_prefix observer r n s :
  n ≤ length (contents r (reg s)) →
  take n (contents r (reg (unsubscribeObserver observer s).2)) =
  take n (contents r (reg s)).
Proof.
  intros Hn. apply prefix_keeps_contents; [|done].
  unfold unsubscribeObserver. destruct (truthy observer); [|by step].
  rewrite bind_run. cbn [get_registry]. apply filter_entries_heap.
Qed.

Lemma first_unsubscribes_observer_keeps : keeps_records first_unsubscribes_observer.
Proof.
  intros r n f d g Hn. unfold first_unsubscribes_observer.
  destruct (Nat.eqb f 0); [|done].
  unfold inside. cbn [fst].
  by apply (unsubscribeObserver_keeps_prefix _ r n (State g [] 0)).
Qed.

(** The callback of "w" removes "w" with [unsubscribeObserver] while it is
    dispatched: the event name gets a new array, the array under iteration
    is as it was, and the callback of "v" is called. *)
Example publish_survives_unsubscribeObserver :
  (publish first_unsubscribes_observer alone (VString "evt") VNull two_on_evt).2 =
  State (Registry [("default", Bucket 2); ("evt", Bucket 3)]
           [[]; [Local (VString "w") (handler 0); Local (VString "v") (handler 1)];
            []; [Local (VString "v") (handler 1)]])
    [Call 0 VNull; Call 1 VNull] 0.
Proof. reflexivity. Qed.

Lemma first_subscribes_another_keeps : keeps_records first_subscribes_another.
Proof.
  intros r n f d g Hn. unfold first_subscribes_another.
  destruct (Nat.eqb f 0); [|done].
  unfold inside. cbn [fst].
  by apply (subscribe_keeps_prefix _ _ _ r n (State g [] 0)).
Qed.

(** ** The scenarios of the specification *)

Example scenario_A :
  calls (trace ((subscribe (VString "login") (VString "x") (handler 0);;
                 publish quiet alone (VString "login") (VObject 9 [("u", VString "a")]))
                  initial).2) =
  [(0, VObject 9 [("u", VString "a")])].
Proof. reflexivity. Qed.

Example scenario_B :
  calls (trace ((subscribe (VString "login") (VString "x") (handler 0);;
                 subscribe (VString "login") (VString "y") (handler 1);;
                 unsubscribe (VString "login") (VString "x");;
                 publish quiet alone (VString "login") (VObject 9 [])) initial).2) =
  [(1, VObject 9 [])].
Proof. reflexivity. Qed.

Example scenario_C :
  calls (trace ((subscribeMultiple (VArray 3 [VString "signin"; VString "signout"])
                   (VString "z") (handler 0);;
                 publish quiet alone (VString "signin") (VString "1");;
                 publish quiet alone (VString "signout") (VString "2")) initial).2) =
  [(0, VString "1"); (0, VString "2")].
Proof. reflexivity. Qed.

Example scenario_D :
  (subscribe (VString "evt") (VString "w") (handler 0);;
   subscribe (VString "evt") (VString "v") (handler 1);;
   publish first_throws alone (VString "evt") (VString "5")) initial =
  (Return (),
   State (reg two_on_evt)
     [Call 0 (VString "5"); WarnDispatch (VString "evt") (Local (VString "w") (handler 0));
      Call 1 (VString "5")] 0).
Proof. reflexivity. Qed.

(** [initialize] empties every bucket and keeps the event names. *)
Example initialize_keeps_names :
  let s := (initialize two_on_evt).2 in
  Obj.keys (events (reg s)) = ["default"; "evt"]
  ∧ isSubscribed (VString "evt") (reg two_on_evt) = true
  ∧ isSubscribed (VString "evt") (reg s) = false
  ∧ records "evt" (reg (subscribe (VString "evt") (VString "w") (handler 0) s).2) =
    [Local (VString "w") (handler 0)].
Proof. repeat split. Qed.

(** Keys that are array indices come first, in ascending order. *)
Example keys_order :
  Obj.keys [("default", Bucket 0); ("b", Bucket 1); ("10", Bucket 2); ("9", Bucket 3);
            ("09", Bucket 4)] =
  ["9"; "10"; "default"; "b"; "09"].
Proof. reflexivity. Qed.

(** ** The guards of [unsubscribe] and [unsubscribeObserver] *)

Lemma unsubscribe_falsy eventName observer s :
  truthy eventName = false →
  unsubscribe eventName observer s =
  (Return (), State (reg s) (trace s ++ [ErrorUnsubscribe (Obj.keys (events (reg s)))])
                (fresh s)).
Proof.
  intros H. unfold unsubscribe. rewrite bind_run. cbn [get_registry].
  rewrite H. by step.
Qed.

Lemma unsubscribeObserver_falsy observer s :
  truthy observer = false →
  unsubscribeObserver observer s =
  (Return (), State (reg s) (trace s ++ [ErrorUnsubscribeObserver]) (fresh s)).
Proof. intros H. unfold unsubscribeObserver. rewrite H. by step. Qed.

(** ** The properties on concrete registries *)

Lemma publish_isolates_failures_witness :
  Obj.get "evt" (events (reg two_on_evt)) = Some (Bucket 1)
  ∧ (∃ s', publish first_throws alone (VString "evt") (VString "5") two_on_evt =
           (Return (), s'))
  ∧ calls (trace (publish first_throws alone (VString "evt") (VString "5") two_on_evt).2) =
    [(0, VString "5"); (1, VString "5")].
Proof.
  destruct (publish_isolates_failures first_throws alone
              (VString "evt") (VString "5") two_on_evt 1 eq_refl)
    as (Hret & _ & Hcalls).
  split; [reflexivity|]. split; [exact Hret|].
  apply (Hcalls _ eq_refl). intros f d g _. reflexivity.
Defined.

(** C3, as stated, fails.  The bucket holds the records of "w" and "v";
    the callback of "w" unsubscribes "w" while it is dispatched.  The
    splice moves "v" to index 0, which [forEach] has passed: the callback
    of "v" is never called, where an iteration over a copy calls both. *)
Lemma publish_skips_after_splice :
  bucket_at "evt" (reg two_on_evt) 1
    [Local (VString "w") (handler 0); Local (VString "v") (handler 1)]
  ∧ calls (trace (publish first_unsubscribes_itself alone
                    (VString "evt") VNull two_on_evt).2) = [(0, VNull)]
  ∧ calls (trace (publish_snapshot first_unsubscribes_itself alone
                    (VString "evt") VNull two_on_evt).2) = [(0, VNull); (1, VNull)]
  ∧ publish first_unsubscribes_itself alone (VString "evt") VNull two_on_evt ≠
    publish_snapshot first_unsubscribes_itself alone (VString "evt") VNull two_on_evt.
Proof. repeat split. discriminate. Qed.

Lemma publish_matches_snapshot_witness :
  bucket_at "evt" (reg two_on_evt) 1
    [Local (VString "w") (handler 0); Local (VString "v") (handler 1)]
  ∧ keeps_prefix first_subscribes_another 1 2
  ∧ records "evt"
      (reg (publish first_subscribes_another alone (VString "evt") VNull two_on_evt).2) =
    [Local (VString "w") (handler 0); Local (VString "v") (handler 1);
     Local (VString "u") (handler 2)]
  ∧ publish first_subscribes_another alone (VString "evt") VNull two_on_evt =
    publish_snapshot first_subscribes_another alone (VString "evt") VNull two_on_evt
  ∧ ∃ t, trace (publish first_subscribes_another alone
                  (VString "evt") VNull two_on_evt).2 = trace two_on_evt ++ t
         ∧ calls t = [(0, VNull); (1, VNull)].
Proof.
  split; [by split|]. split; [apply first_subscribes_another_keeps|].
  split; [reflexivity|].
  apply (publish_matches_snapshot first_subscribes_another alone
           (VString "evt") VNull two_on_evt 1
           [Local (VString "w") (handler 0); Local (VString "v") (handler 1)]).
  - by split.
  - apply first_subscribes_another_keeps.
Defined.

(** C4, as stated, fails.  "w" and "v" subscribe to "evt" in this order;
    the callback of "w" unsubscribes "w" while it is dispatched.  [publish]
    walks the array that [unsubscribe] has just spliced: the callback of
    "v", registered second, is never called. *)
Lemma publish_order_lost_on_unsubscribe :
  ∃ s1,
    subscribe_all (VString "evt") [(VString "w", handler 0); (VString "v", handler 1)]
      initial = (Return (), s1)
    ∧ records "evt" (reg s1) =
      [Local (VString "w") (handler 0); Local (VString "v") (handler 1)]
    ∧ callable_ids [(VString "w", handler 0); (VString "v", handler 1)] = [0; 1]
    ∧ calls (trace (publish first_unsubscribes_itself alone
                      (VString "evt") VNull s1).2) = [(0, VNull)]
    ∧ ¬ keeps_records first_unsubscribes_itself.
Proof.
  eexists. split; [reflexivity|]. split; [reflexivity|]. split; [reflexivity|].
  split; [reflexivity|].
  intros H. specialize (H 1 1 0 VNull (reg two_on_evt)).
  cbn in H. specialize (H (le_S _ _ (le_n 1))). discriminate H.
Qed.

Lemma publish_in_subscription_order_witness :
  free_or_bucket "login" (reg initial)
  ∧ keeps_records quiet
  ∧ ∃ s1 s2 t,
      subscribe_all (VString "login")
        [(VString "x", handler 0); (VString "y", handler 1); (VString "x", handler 0)]
        initial = (Return (), s1)
      ∧ publish quiet alone (VString "login") VNull s1 = (Return (), s2)
      ∧ trace s2 = trace s1 ++ t
      ∧ calls t = [(0, VNull); (1, VNull); (0, VNull)].
Proof.
  assert (H1 : free_or_bucket "login" (reg initial)) by (left; reflexivity).
  assert (H2 : keeps_records quiet) by (intros r n f d g _; reflexivity).
  split; [exact H1|]. split; [exact H2|].
  destruct (publish_in_subscription_order quiet alone (VString "login")
              [(VString "x", handler 0); (VString "y", handler 1); (VString "x", handler 0)]
              VNull initial H1 H2)
    as (s1 & s2 & t & Hsub & _ & Hpub & Htr & Hc).
  by exists s1, s2, t.
Defined.

Lemma unsubscribe_first_match_witness :
  truthy (VString "login") = true
  ∧ bucket_at "login" (reg x_twice) 1
      [Local (VString "x") (handler 0); Local (VString "y") (handler 1);
       Local (VString "x") (handler 2)]
  ∧ unsubscribe (VString "login") (VString "x") x_twice =
    (Return (),
     State (Registry [("default", Bucket 0); ("login", Bucket 1)]
              [[]; [Local (VString "y") (handler 1); Local (VString "x") (handler 2)]])
       [] 0).
Proof.
  split; [reflexivity|]. split; [by split|].
  apply (unsubscribe_first_match (VString "login") (VString "x") x_twice 1
           [Local (VString "x") (handler 0); Local (VString "y") (handler 1);
            Local (VString "x") (handler 2)]); [reflexivity|by split].
Defined.

Lemma z_on_two_well_formed : well_formed (reg z_on_two).
Proof.
  split; [|split].
  - compute_done.
  - compute_done.
  - intros k v H. cbn in H.
    apply elem_of_cons in H as [[= -> ->]|H]; [by eexists _, _|].
    apply elem_of_cons in H as [[= -> ->]|H]; [by eexists _, _|].
    by apply elem_of_nil in H.
Qed.

Lemma unsubscribeObserver_everywhere_witness :
  truthy (VString "z") = true
  ∧ well_formed (reg z_on_two)
  ∧ ∃ g', unsubscribeObserver (VString "z") z_on_two = (Return (), State g' [] 0)
          ∧ (∃ r', bucket_at "default" g' r' [])
          ∧ (∃ r', bucket_at "login" g' r' []).
Proof.
  split; [reflexivity|]. split; [exact z_on_two_well_formed|].
  destruct (unsubscribeObserver_everywhere (VString "z") z_on_two eq_refl
              z_on_two_well_formed) as (g' & Hrun & Hb & _).
  exists g'. split; [exact Hrun|]. split.
  - destruct (Hb "default" 0 [Local (VString "z") (handler 0)]) as (r' & Hr' & _);
      [by split|]. by exists r'.
  - destruct (Hb "login" 1 [Local (VString "z") (handler 0)]) as (r' & Hr' & _);
      [by split|]. by exists r'.
Defined.

(** C7, as stated, fails.  An empty array of names and a handler that is
    not callable are passed over without a diagnostic, and a name that is
    not a string is registered under its string. *)
Lemma subscribeMultiple_silent :
  subscribeMultiple (VArray 0 []) (VString "x") (handler 0) initial = (Return (), initial)
  ∧ subscribeMultiple (VArray 0 [VString "signin"]) (VString "x") (VString "no function")
      initial = (Return (), initial)
  ∧ records "null"
      (reg (subscribeMultiple (VArray 0 [VNull]) (VString "x") (handler 0) initial).2) =
    [Local (VString "x") (handler 0)].
Proof. repeat split. Qed.

Lemma subscribeMultiple_rejects_witness :
  meets_requirements (VString "signin") (handler 0) = false
  ∧ subscribeMultiple (VString "signin") (VString "x") (handler 0) initial =
    (Return (), State initial_registry [ErrorSubscribeMultiple ["default"]] 0).
Proof.
  split; [reflexivity|].
  apply (subscribeMultiple_rejects (VString "signin") (VString "x") (handler 0) initial).
  reflexivity.
Defined.

Lemma subscribe_callable_first_witness :
  truthy (VString "login") = true
  ∧ test_http (VString "https://x/") = true
  ∧ (∃ g' r, subscribe (VString "login") (VString "https://x/") (handler 0) initial =
               (Return (), State g' [] 0)
             ∧ bucket_at "login" g' r [Local (VString "https://x/") (handler 0)])
  ∧ (∃ s1 s2 t,
       subscribe (VString "login") (VString "https://x/") (handler 0) initial =
         (Return (), s1)
       ∧ publish quiet three_frames (VString "login") (VString "data") s1 = (Return (), s2)
       ∧ trace s2 = trace s1 ++ t
       ∧ calls t = [(0, VString "data")])
  ∧ trace ((subscribe (VString "login") (VString "https://x/") (handler 0);;
            publish quiet three_frames (VString "login") (VString "data")) initial).2 =
    [Call 0 (VString "data")].
Proof.
  split; [reflexivity|]. split; [reflexivity|].
  destruct (subscribe_callable_first (VString "login") (VString "https://x/") 0
              "function (data) {}" eq_refl eq_refl) as (_ & _ & _ & H4 & _ & H6 & _).
  split; [apply (H4 initial); left; reflexivity|].
  split; [|reflexivity].
  apply (H6 quiet three_frames (VString "data") initial); left; reflexivity.
Defined.

Lemma publish_frames_registry_witness :
  callbacks_pure first_throws
  ∧ reg (publish first_throws alone (VString "evt") VNull two_on_evt).2 = reg two_on_evt
  ∧ isSubscribedByWho (VString "never seen")
      (reg (publish first_throws alone (VString "never seen") VNull two_on_evt).2) = None.
Proof.
  assert (H : callbacks_pure first_throws) by (intros f d g; reflexivity).
  split; [exact H|]. split.
  - apply (publish_frames_registry first_throws alone (VString "evt") VNull two_on_evt H).
  - apply (publish_frames_registry first_throws alone (VString "never seen") VNull
             two_on_evt H). reflexivity.
Defined.

(** * Further properties *)

(** ** The remote bridge *)

Lemma find_child_app observer fs1 fs2 i c :
  find_child observer (fs1 ++ fs2) i c =
  match find_child observer fs1 i c with
  | Return c' => find_child observer fs2 (i + length fs1) c'
  | Throw e => Throw e
  end.
Proof.
  revert i c. induction fs1 as [|f fs1 IH]; intros i c; simpl.
  - by rewrite Nat.add_0_r.
  - destruct (location_href f); [|done].
    rewrite IH. by rewrite Nat.add_succ_r.
Qed.

Lemma find_child_readable observer fs i c :
  Forall readable fs → ∃ c', find_child observer fs i c = Return c'.
Proof.
  intros H. revert i c. induction H as [|f fs [href Hf] _ IH]; intros i c; simpl.
  - by eexists.
  - rewrite Hf. apply IH.
Qed.

Lemma find_child_no_match observer fs i c :
  Forall readable fs →
  Forall (λ f, frame_matches observer f = false) fs →
  find_child observer fs i c = Return c.
Proof.
  intros H. revert i c.
  induction H as [|f fs [href Hf] _ IH]; intros i c Hno; simpl; [done|].
  apply Forall_cons in Hno as [Hm Hno]. unfold frame_matches in Hm.
  rewrite Hf in *. rewrite Hm. by apply IH.
Qed.

Lemma find_child_last_match observer fs1 f fs2 :
  Forall readable fs1 →
  frame_matches observer f = true →
  Forall readable fs2 →
  Forall (λ f', frame_matches observer f' = false) fs2 →
  find_child observer (fs1 ++ f :: fs2) 0 None = Return (Some (length fs1, f)).
Proof.
  intros Hr1 Hm Hr2 Hno. rewrite find_child_app.
  destruct (find_child_readable observer fs1 0 None Hr1) as [c1 ->].
  cbn [find_child]. unfold frame_matches in Hm.
  destruct (location_href f) as [href|]; [|done]. rewrite Hm.
  by rewrite find_child_no_match.
Qed.

(** X1.  When the addresses of the frames can be read and some frame is at
    the address of the observer, the message goes to the last such frame,
    with the origin of the window itself as target origin, and to nobody
    else; the registry is not touched. *)
Theorem publishRemotely_last_matching_frame win info d s fs1 f fs2 :
  frames win = fs1 ++ f :: fs2 →
  Forall readable fs1 →
  frame_matches (info_observer info) f = true →
  postMessage f = true →
  Forall readable fs2 →
  Forall (λ f', frame_matches (info_observer info) f' = false) fs2 →
  publishRemotely win info d s =
  (Return (),
   State (reg s) (trace s ++ [PostToFrame (length fs1) info (location_origin win)])
     (fresh s)).
Proof.
  intros Hfs Hr1 Hm Hpost Hr2 Hno. unfold publishRemotely.
  rewrite Hfs, find_child_last_match by done.
  by rewrite Hpost, emit_run.
Qed.


Lemma publishRemotely_last_matching_frame_witness :
  publishRemotely three_frames
    (OfSubscription (Remote (VString "https://x/") VNull)) (VString "data") initial =
  (Return (),
   State initial_registry
     [PostToFrame 2 (OfSubscription (Remote (VString "https://x/") VNull))
        "https://app.example"] 0).
Proof.
  apply (publishRemotely_last_matching_frame three_frames _ _ initial
           [Frame (Some "https://x/") true; Frame (Some "https://y/") true]
           (Frame (Some "https://x/") true) []).
  - reflexivity.
  - repeat constructor; by eexists.
  - reflexivity.
  - reflexivity.
  - constructor.
  - constructor.
Defined.


(** ** Remote records *)

Section Remote.

Variable invoke : fid → value → registry → registry * option value.
Variable win : window.

Lemma forEach_from_remote e d1 d2 r b m k s :
  contents r (reg s) = b →
  Forall (λ x, has_payload x = true) b →
  forEach_from r k m (dispatch invoke win e d1) s =
  forEach_from r k m (dispatch invoke win e d2) s
  ∧ reg (forEach_from r k m (dispatch invoke win e d1) s).2 = reg s
  ∧ calls (trace (forEach_from r k m (dispatch invoke win e d1) s).2) = calls (trace s).
Proof.
  intros Hb Hall. revert k s Hb. induction m as [|m IH]; intros k s Hb; [done|].
  cbn [forEach_from]. rewrite !bind_run, !read_array_run, !bind_run, Hb.
  destruct (b !! k) as [x|] eqn:Hx.
  - assert (Hp : has_payload x = true).
    { by apply (Forall_lookup_1 _ _ _ _ Hall Hx). }
    destruct x as [o c|o p]; [done|].
    change (dispatch invoke win e d2 (Remote o p) s)
      with (dispatch invoke win e d1 (Remote o p) s).
    destruct (dispatch_spec invoke win e d1 (Remote o p) s) as (t & -> & Ht).
    cbn [after_dispatch] in *.
    destruct (IH (S k) (State (reg s) (trace s ++ t) (fresh s)) Hb) as (H1 & H2 & H3).
    split; [exact H1|]. split; [exact H2|].
    rewrite H3. cbn [trace]. by rewrite calls_app, Ht, app_nil_r.
  - apply (IH (S k) s Hb).
Qed.

(** X3.  What is published never reaches a remote observer: on a bucket of
    remote records [publish] does the same whatever the data, since the
    bridge sends the subscription record and drops the data; it calls no
    callback and leaves the registry as it is. *)
Theorem publish_remote_ignores_data eventName d1 d2 s r b :
  bucket_at (to_string eventName) (reg s) r b →
  Forall (λ x, has_payload x = true) b →
  publish invoke win eventName d1 s = publish invoke win eventName d2 s
  ∧ reg (publish invoke win eventName d1 s).2 = reg s
  ∧ calls (trace (publish invoke win eventName d1 s).2) = calls (trace s).
Proof.
  intros [Hget Hheap] Hall.
  assert (Hb : contents r (reg s) = b) by (unfold contents; by rewrite Hheap).
  unfold publish, forEach.
  rewrite !bind_run, !read_event_run, Hget, !bind_run, !read_array_run.
  by apply (forEach_from_remote _ _ _ _ b).
Qed.

(** X4.  A subscription without a function, for an observer whose name
    starts with "http", on an event name that is free: the third argument
    of [subscribe] is kept as the payload of a remote record, and a
    [publish] on that name posts this record, payload included, to the
    frame that is at the address of the observer. *)
Theorem remote_subscription_round_trip eventName observer payload d s fs1 f fs2 :
  truthy eventName = true →
  is_function payload = false →
  test_http observer = true →
  Obj.get (to_string eventName) (events (reg s)) = None →
  frames win = fs1 ++ f :: fs2 →
  Forall readable fs1 →
  frame_matches observer f = true →
  postMessage f = true →
  Forall readable fs2 →
  Forall (λ f', frame_matches observer f' = false) fs2 →
  ∃ g', (subscribe eventName observer payload;; publish invoke win eventName d) s =
          (Return (),
           State g'
             (trace s ++ [PostToFrame (length fs1)
                            (OfSubscription (Remote observer payload))
                            (location_origin win)])
             (fresh s))
        ∧ records (to_string eventName) g' = [Remote observer payload].
Proof.
  intros He Hp Ho Hfree Hfs Hr1 Hm Hpost Hr2 Hno.
  rewrite bind_run. unfold subscribe. rewrite He, Hp, andb_false_r, Ho.
  destruct (ensure_push_spec (to_string eventName) (Remote observer payload) s)
    as (g' & r & -> & Hb); [by left|].
  rewrite (free_records _ _ Hfree) in Hb. cbn [app] in Hb.
  exists g'. split; [|exact (bucket_at_records _ _ _ _ Hb)].
  destruct Hb as [Hget Hheap].
  assert (Hc : contents r g' = [Remote observer payload])
    by (unfold contents; by rewrite Hheap).
  unfold publish, forEach. rewrite bind_run, read_event_run. cbn [reg]. rewrite Hget.
  rewrite bind_run, read_array_run. cbn [reg]. rewrite Hc.
  cbn [length forEach_from].
  rewrite bind_run, read_array_run. cbn [reg]. rewrite Hc.
  cbn [lookup list_lookup]. rewrite bind_run.
  unfold dispatch, try_catch. cbn [has_payload].
  unfold publishRemotely. cbn [info_observer observer_of].
  rewrite Hfs, find_child_last_match by done.
  rewrite Hpost, emit_run. reflexivity.
Qed.

End Remote.

Lemma publish_remote_ignores_data_witness :
  let s := State (Registry [("default", Bucket 0)]
                    [[Remote (VString "https://x/") VNull;
                      Remote (VString "https://z/") VNull]]) [] 0 in
  publish quiet three_frames (VString "default") (VString "one") s =
  publish quiet three_frames (VString "default") (VString "two") s.
Proof.
  intros s.
  apply (publish_remote_ignores_data quiet three_frames (VString "default")
           (VString "one") (VString "two") s 0
           [Remote (VString "https://x/") VNull; Remote (VString "https://z/") VNull]).
  - by split.
  - by repeat constructor.
Defined.

Lemma remote_subscription_round_trip_witness :
  ∃ g', (subscribe (VString "login") (VString "https://x/") (VString "control");;
         publish quiet three_frames (VString "login") (VString "data")) initial =
          (Return (),
           State g'
             [PostToFrame 2
                (OfSubscription (Remote (VString "https://x/") (VString "control")))
                "https://app.example"] 0)
        ∧ records "login" g' = [Remote (VString "https://x/") (VString "control")].
Proof.
  apply (remote_subscription_round_trip quiet three_frames (VString "login")
           (VString "https://x/") (VString "control") (VString "data") initial
           [Frame (Some "https://x/") true; Frame (Some "https://y/") true]
           (Frame (Some "https://x/") true) []);
    try reflexivity.
  - repeat constructor; by eexists.
  - constructor.
  - constructor.
Defined.

(** ** Properties that every operation keeps *)

Lemma preserves_bind P {A B} (m : M A) (f : A → M B) :
  preserves P m → (∀ a, preserves P (f a)) → preserves P (m ≫= f).
Proof.
  intros Hm Hf s HP. rewrite bind_run.
  specialize (Hm s HP). destruct (m s) as [[a|e] s']; [|done].
  by apply Hf.
Qed.

Lemma preserves_for_each P {A} (l : list A) (f : A → M unit) :
  (∀ x, preserves P (f x)) → preserves P (for_each l f).
Proof.
  intros Hf. induction l as [|x l IH]; [by intros s H|].
  cbn [for_each]. apply preserves_bind; auto.
Qed.

Lemma preserves_pure P {A} (m : M A) :
  (∀ s, reg (m s).2 = reg s) → preserves P m.
Proof. intros H s HP. by rewrite H. Qed.

Lemma elem_of_set_own k v k' v' o :
  NoDup o.*1 →
  (k', v') ∈ Obj.set_own k v o ↔ (k' = k ∧ v' = v) ∨ (k' ≠ k ∧ (k', v') ∈ o).
Proof.
  induction o as [|[k0 v0] o IH]; csimpl.
  - intros _. rewrite list_elem_of_singleton. split.
    + intros [= -> ->]. by left.
    + intros [[-> ->]|[_ H]]; [done|]. by apply elem_of_nil in H.
  - intros [Hk0 Hnd]%NoDup_cons. destruct (String.eqb k0 k) eqn:E.
    + apply String.eqb_eq in E as ->. rewrite !elem_of_cons. split.
      * intros [[= -> ->]|H]; [by left|]. right. split; [|by right].
        intros ->. apply Hk0. apply list_elem_of_fmap. by exists (k, v').
      * intros [[-> ->]|[Hne [[= -> ->]|H]]]; [by left|done|by right].
    + apply String.eqb_neq in E. rewrite !elem_of_cons, IH by done. split.
      * intros [[= -> ->]|[H|[Hne H]]]; [right; split; [done|by left]|by left|].
        right. split; [done|by right].
      * intros [H|[Hne [[= -> ->]|H]]]; [right; by left|by left|].
        right. right. done.
Qed.

Lemma set_own_keys k v o :
  (Obj.set_own k v o).*1 =
  match Obj.get_own k o with Some _ => o.*1 | None => o.*1 ++ [k] end.
Proof.
  induction o as [|[k' v'] o IH]; csimpl; [done|].
  destruct (String.eqb k' k) eqn:E; csimpl; [done|].
  rewrite IH. by destruct (Obj.get_own k o).
Qed.

Lemma NoDup_set_own k v o : NoDup o.*1 → NoDup (Obj.set_own k v o).*1.
Proof.
  intros H. rewrite set_own_keys.
  destruct (Obj.get_own k o) eqn:E; [done|].
  apply NoDup_app. split; [done|]. split; [|apply NoDup_singleton].
  intros x Hx ->%list_elem_of_singleton. by apply ObjFacts.get_own_None in E.
Qed.

Lemma sound_write_array o h r l :
  sound (Registry o h) → sound (Registry o (<[r := l]> h)).
Proof.
  intros (H1 & H2 & H3 & H4). repeat split; try done.
  cbn [events heap] in *. intros k r' Hk. rewrite length_insert. by eapply H3.
Qed.

Lemma sound_alloc o h l : sound (Registry o h) → sound (Registry o (h ++ [l])).
Proof.
  intros (H1 & H2 & H3 & H4). repeat split; try done.
  cbn [events heap] in *. intros k r' Hk. rewrite length_app.
  specialize (H3 k r' Hk). lia.
Qed.

(** Binding an event name to an array that has just been created. *)
Lemma sound_bind_new o h k l :
  sound (Registry o h) →
  sound (Registry (Obj.set k (Bucket (length h)) o) (h ++ [l])).
Proof.
  intros Hs. unfold Obj.set. destruct (String.eqb k "__proto__") eqn:E.
  { by apply sound_alloc. }
  apply String.eqb_neq in E.
  destruct Hs as (H1 & H2 & H3 & H4). cbn [events heap] in *.
  repeat split; cbn [events heap].
  - by apply NoDup_set_own.
  - rewrite set_own_keys. destruct (Obj.get_own k o); [done|].
    rewrite elem_of_app, list_elem_of_singleton. intros [?|?]; [done|congruence].
  - intros k' r' [[-> [= ->]]|[Hne Hk']]%elem_of_set_own; [|specialize (H3 k' r' Hk')|done];
      rewrite length_app; simpl; lia.
  - intros k1 k2 r' [[-> [= ->]]|[Hne1 Hk1]]%elem_of_set_own
                     [[-> Hv]|[Hne2 Hk2]]%elem_of_set_own; try done.
    + specialize (H3 k2 _ Hk2). lia.
    + injection Hv as ->. specialize (H3 k1 _ Hk1). lia.
    + by eapply H4.
Qed.

Lemma sound_set_inherited o h k b :
  sound (Registry o h) → sound (Registry (Obj.set k (Inherited b) o) h).
Proof.
  intros Hs. unfold Obj.set. destruct (String.eqb k "__proto__") eqn:E; [done|].
  apply String.eqb_neq in E.
  destruct Hs as (H1 & H2 & H3 & H4). cbn [events heap] in *.
  repeat split; cbn [events heap].
  - by apply NoDup_set_own.
  - rewrite set_own_keys. destruct (Obj.get_own k o); [done|].
    rewrite elem_of_app, list_elem_of_singleton. intros [?|?]; [done|congruence].
  - intros k' r' [[-> [=]]|[Hne Hk']]%elem_of_set_own; [|done]. by eapply H3.
  - intros k1 k2 r' [[-> [=]]|[Hne1 Hk1]]%elem_of_set_own
                     [[-> [=]]|[Hne2 Hk2]]%elem_of_set_own; try done.
    by eapply H4.
Qed.

Lemma registry_eta g : Registry (events g) (heap g) = g.
Proof. by destruct g. Qed.

Lemma preserves_sound_new_binding k l :
  preserves sound (r ← new_array l; write_event k (Bucket r)).
Proof.
  intros s Hs. step. cbn [snd reg].
  apply sound_bind_new. by rewrite registry_eta.
Qed.

Lemma preserves_sound_ensure_bucket k : preserves sound (ensure_bucket k).
Proof.
  unfold ensure_bucket. intros s Hs. rewrite bind_run, read_event_run.
  destruct (Obj.get k (events (reg s))) as [[r|b]|] eqn:E.
  - step. cbn [snd reg]. rewrite (ObjFacts.set_same _ _ _ E). by rewrite registry_eta.
  - step. cbn [snd reg]. apply sound_set_inherited. by rewrite registry_eta.
  - by apply preserves_sound_new_binding.
Qed.

Lemma preserves_sound_push k x : preserves sound (push k x).
Proof.
  unfold push. intros s Hs. rewrite bind_run, read_event_run.
  destruct (Obj.get k (events (reg s))) as [[r|b]|]; [|done..].
  step. cbn [snd reg]. apply sound_write_array. by rewrite registry_eta.
Qed.

Lemma preserves_sound_subscribe eventName observer callback :
  preserves sound (subscribe eventName observer callback).
Proof.
  unfold subscribe. destruct (truthy eventName).
  - destruct (truthy callback && is_function callback);
      [|destruct (test_http observer)];
      try (apply preserves_bind;
           [apply preserves_sound_ensure_bucket|intros _; apply preserves_sound_push]).
    by apply preserves_pure.
  - by apply preserves_pure.
Qed.

Lemma preserves_sound_subscribeMultiple eventNames observer callback :
  preserves sound (subscribeMultiple eventNames observer callback).
Proof.
  unfold subscribeMultiple.
  destruct eventNames; try by apply preserves_pure.
  destruct (truthy callback && is_function callback); [|by apply preserves_pure].
  apply preserves_for_each. intros name.
  apply preserves_bind;
    [apply preserves_sound_ensure_bucket|intros _; apply preserves_sound_push].
Qed.

Lemma preserves_sound_unsubscribe eventName observer :
  preserves sound (unsubscribe eventName observer).
Proof.
  unfold unsubscribe. intros s Hs. rewrite bind_run. cbn [get_registry].
  destruct (truthy eventName && Obj.has (to_string eventName) (events (reg s)));
    [|done].
  destruct (Obj.get _ _) as [[r|[|name [|n]]]|]; try done.
  step. cbn [snd reg]. apply sound_write_array. by rewrite registry_eta.
Qed.

Lemma preserves_sound_unsubscribeObserver observer :
  preserves sound (unsubscribeObserver observer).
Proof.
  unfold unsubscribeObserver. destruct (truthy observer); [|by apply preserves_pure].
  apply preserves_bind; [by apply preserves_pure|]. intros g.
  apply preserves_for_each. intros [key [r|b]]; [|by apply preserves_pure].
  apply preserves_bind; [by apply preserves_pure|]. intros l.
  apply preserves_sound_new_binding.
Qed.

Lemma preserves_sound_initialize : preserves sound initialize.
Proof.
  unfold initialize.
  apply preserves_bind; [by apply preserves_pure|]. intros g.
  apply preserves_for_each. intros k. apply preserves_sound_new_binding.
Qed.

Lemma preserves_sound_initPostMessaging : preserves sound initPostMessaging.
Proof.
  unfold initPostMessaging.
  apply preserves_bind; [by apply preserves_pure|]. intros _.
  apply preserves_sound_new_binding.
Qed.

Lemma initial_sound : sound initial_registry.
Proof.
  repeat split; try compute_done.
  - intros k r H. cbn in H. apply list_elem_of_singleton in H as [= -> ->]. simpl. lia.
  - intros k1 k2 r H1 H2. cbn in *.
    apply list_elem_of_singleton in H1 as [= -> ->].
    by apply list_elem_of_singleton in H2 as [= ->].
Qed.

(** X5.  The operations that write to the registry keep it sound, whatever
    their arguments and whether they complete or throw: the event names
    stay distinct, every name that holds an array holds one that exists,
    and no two names share an array, so that a change to one bucket is
    never a change to another.  The registry of a new module is sound. *)
Theorem operations_keep_sound s :
  sound (reg s) →
  (∀ eventName observer callback, sound (reg (subscribe eventName observer callback s).2))
  ∧ (∀ eventNames observer callback,
       sound (reg (subscribeMultiple eventNames observer callback s).2))
  ∧ (∀ eventName observer, sound (reg (unsubscribe eventName observer s).2))
  ∧ (∀ observer, sound (reg (unsubscribeObserver observer s).2))
  ∧ sound (reg (initialize s).2)
  ∧ sound (reg (initPostMessaging s).2)
  ∧ sound initial_registry.
Proof.
  intros Hs. split_and!.
  - intros. by apply preserves_sound_subscribe.
  - intros. by apply preserves_sound_subscribeMultiple.
  - intros. by apply preserves_sound_unsubscribe.
  - intros. by apply preserves_sound_unsubscribeObserver.
  - by apply preserves_sound_initialize.
  - by apply preserves_sound_initPostMessaging.
  - apply initial_sound.
Qed.

Lemma z_on_two_sound : sound (reg z_on_two).
Proof.
  change (reg z_on_two)
    with (reg ((subscribe (VString "default") (VString "z") (handler 0);;
                subscribe (VString "login") (VString "z") (handler 0)) initial).2).
  apply preserves_bind; [apply preserves_sound_subscribe| |apply initial_sound].
  intros _. apply preserves_sound_subscribe.
Qed.

Lemma operations_keep_sound_witness :
  sound (reg (subscribe (VString "constructor") (VString "x") (handler 0) initial).2)
  ∧ sound (reg (unsubscribeObserver (VString "z") z_on_two).2).
Proof.
  split.
  - apply (operations_keep_sound initial initial_sound).
  - apply (operations_keep_sound z_on_two z_on_two_sound).
Defined.

(** Operations that change [events] only by assignments and arrays in any
    way keep every property that assignments and changes of arrays keep. *)
Section Assignments.

Variable P : registry → Prop.
Hypothesis P_set : ∀ g k v, P g → P (Registry (Obj.set k v (events g)) (heap g)).
Hypothesis P_heap : ∀ g h, P g → P (Registry (events g) h).

Lemma preserves_write_event k v : preserves P (write_event k v).
Proof. intros s H. step. cbn [snd reg]. by apply P_set. Qed.

Lemma preserves_new_array l : preserves P (new_array l).
Proof. intros s H. step. cbn [snd reg]. by apply P_heap. Qed.

Lemma preserves_write_array r l : preserves P (write_array r l).
Proof. intros s H. step. cbn [snd reg]. by apply P_heap. Qed.

Lemma preserves_new_binding k l :
  preserves P (r ← new_array l; write_event k (Bucket r)).
Proof.
  apply preserves_bind; [apply preserves_new_array|].
  intros r. apply preserves_write_event.
Qed.

Lemma preserves_ensure_push k x : preserves P (ensure_bucket k;; push k x).
Proof.
  apply preserves_bind.
  - unfold ensure_bucket. apply preserves_bind; [by apply preserves_pure|].
    intros [v|]; [apply preserves_write_event|apply preserves_new_binding].
  - intros _. unfold push. apply preserves_bind; [by apply preserves_pure|].
    intros [[r|b]|]; try by apply preserves_pure.
    apply preserves_bind; [by apply preserves_pure|].
    intros l. apply preserves_write_array.
Qed.

Lemma preserves_subscribe eventName observer callback :
  preserves P (subscribe eventName observer callback).
Proof.
  unfold subscribe. destruct (truthy eventName); [|by apply preserves_pure].
  destruct (truthy callback && is_function callback); [apply preserves_ensure_push|].
  destruct (test_http observer); [apply preserves_ensure_push|by apply preserves_pure].
Qed.

Lemma preserves_subscribeMultiple eventNames observer callback :
  preserves P (subscribeMultiple eventNames observer callback).
Proof.
  unfold subscribeMultiple.
  destruct eventNames; try by apply preserves_pure.
  destruct (truthy callback && is_function callback); [|by apply preserves_pure].
  apply preserves_for_each. intros name. apply preserves_ensure_push.
Qed.

Lemma preserves_unsubscribe eventName observer :
  preserves P (unsubscribe eventName observer).
Proof.
  unfold unsubscribe. intros s Hs. rewrite bind_run. cbn [get_registry].
  destruct (truthy eventName && Obj.has (to_string eventName) (events (reg s)));
    [|done].
  destruct (Obj.get _ _) as [[r|[|name [|n]]]|]; try done.
  step. cbn [snd reg]. by apply P_heap.
Qed.

Lemma preserves_unsubscribeObserver observer :
  preserves P (unsubscribeObserver observer).
Proof.
  unfold unsubscribeObserver. destruct (truthy observer); [|by apply preserves_pure].
  apply preserves_bind; [by apply preserves_pure|]. intros g.
  apply preserves_for_each. intros [key [r|b]]; [|by apply preserves_pure].
  apply preserves_bind; [by apply preserves_pure|]. intros l.
  apply preserves_new_binding.
Qed.

Lemma preserves_initialize : preserves P initialize.
Proof.
  unfold initialize.
  apply preserves_bind; [by apply preserves_pure|]. intros g.
  apply preserves_for_each. intros k. apply preserves_new_binding.
Qed.

Lemma preserves_initPostMessaging : preserves P initPostMessaging.
Proof.
  unfold initPostMessaging.
  apply preserves_bind; [by apply preserves_pure|]. intros _.
  apply preserves_new_binding.
Qed.

End Assignments.

Lemma set_keeps_names k v k' o : k' ∈ o.*1 → k' ∈ (Obj.set k v o).*1.
Proof.
  intros H. unfold Obj.set. destruct (String.eqb k "__proto__"); [done|].
  rewrite set_own_keys. destruct (Obj.get_own k o); [done|].
  apply elem_of_app. by left.
Qed.

(** X6.  No operation deletes an event name: a name that [events] has as
    an own property before [subscribe], [subscribeMultiple], [unsubscribe],
    [unsubscribeObserver], [initialize] or [initPostMessaging] is still one
    after it, whatever the arguments and whether the operation completes
    or throws.  Buckets are emptied or replaced, never removed. *)
Theorem event_names_never_deleted k s :
  k ∈ (events (reg s)).*1 →
  (∀ eventName observer callback,
     k ∈ (events (reg (subscribe eventName observer callback s).2)).*1)
  ∧ (∀ eventNames observer callback,
       k ∈ (events (reg (subscribeMultiple eventNames observer callback s).2)).*1)
  ∧ (∀ eventName observer, k ∈ (events (reg (unsubscribe eventName observer s).2)).*1)
  ∧ (∀ observer, k ∈ (events (reg (unsubscribeObserver observer s).2)).*1)
  ∧ k ∈ (events (reg (initialize s).2)).*1
  ∧ k ∈ (events (reg (initPostMessaging s).2)).*1.
Proof.
  intros Hk.
  set (P := λ g : registry, k ∈ (events g).*1).
  assert (P_set : ∀ g k' v, P g → P (Registry (Obj.set k' v (events g)) (heap g))).
  { intros g k' v H. by apply set_keeps_names. }
  assert (P_heap : ∀ g h, P g → P (Registry (events g) h)) by done.
  split_and!; intros.
  - by apply (preserves_subscribe P P_set P_heap).
  - by apply (preserves_subscribeMultiple P P_set P_heap).
  - by apply (preserves_unsubscribe P P_heap).
  - by apply (preserves_unsubscribeObserver P P_set P_heap).
  - by apply (preserves_initialize P P_set P_heap).
  - by apply (preserves_initPostMessaging P P_set P_heap).
Qed.

Lemma event_names_never_deleted_witness :
  "evt" ∈ (events (reg (unsubscribeObserver (VString "w") two_on_evt).2)).*1
  ∧ "evt" ∈ (events (reg (initialize two_on_evt).2)).*1.
Proof.
  assert (H : "evt" ∈ (events (reg two_on_evt)).*1) by compute_done.
  split; by apply (event_names_never_deleted "evt" two_on_evt H).
Defined.

(** ** Arrays that are replaced, arrays that are changed in place *)

Lemma preserves_prefix_new_binding h k l :
  preserves (λ g, h `prefix_of` heap g) (r ← new_array l; write_event k (Bucket r)).
Proof.
  intros s H. step. cbn [snd reg heap]. etrans; [exact H|]. by apply prefix_app_r.
Qed.

Lemma prefix_contents r g g' :
  heap g `prefix_of` heap g' → r < length (heap g) → contents r g' = contents r g.
Proof.
  intros Hpre Hr. unfold contents, aref in *.
  destruct (lookup_lt_is_Some_2 _ _ Hr) as [l E].
  by rewrite E, (prefix_lookup_Some _ _ _ _ E Hpre).
Qed.

Lemma preserves_prefix_unsubscribeObserver h observer :
  preserves (λ g, h `prefix_of` heap g) (unsubscribeObserver observer).
Proof.
  unfold unsubscribeObserver.
  destruct (truthy observer); [|by apply preserves_pure].
  apply preserves_bind; [by apply preserves_pure|]. intros g.
  apply preserves_for_each. intros [key [r'|b]]; [|by apply preserves_pure].
  apply preserves_bind; [by apply preserves_pure|]. intros l.
  apply preserves_prefix_new_binding.
Qed.

Lemma preserves_prefix_initialize h :
  preserves (λ g, h `prefix_of` heap g) initialize.
Proof.
  unfold initialize.
  apply preserves_bind; [by apply preserves_pure|]. intros g.
  apply preserves_for_each. intros k. apply preserves_prefix_new_binding.
Qed.

Lemma preserves_prefix_initPostMessaging h :
  preserves (λ g, h `prefix_of` heap g) initPostMessaging.
Proof.
  unfold initPostMessaging.
  apply preserves_bind; [by apply preserves_pure|]. intros _.
  apply preserves_prefix_new_binding.
Qed.

(** X7.  [unsubscribeObserver], [initialize] and [initPostMessaging] write
    to no array: they bind event names to new arrays.  An array that
    existed before, such as one that [isSubscribedByWho] returned, holds
    after the operation the records it held before, those of a removed
    observer included: it no longer shows what the registry holds. *)
Theorem rebinding_leaves_arrays r s :
  r < length (heap (reg s)) →
  (∀ observer, contents r (reg (unsubscribeObserver observer s).2) = contents r (reg s))
  ∧ contents r (reg (initialize s).2) = contents r (reg s)
  ∧ contents r (reg (initPostMessaging s).2) = contents r (reg s).
Proof.
  intros Hr. split_and!; [intros observer|..]; apply prefix_contents; try done.
  - by apply (preserves_prefix_unsubscribeObserver (heap (reg s))).
  - by apply (preserves_prefix_initialize (heap (reg s))).
  - by apply (preserves_prefix_initPostMessaging (heap (reg s))).
Qed.

Lemma rebinding_leaves_arrays_witness :
  records "login" (reg (unsubscribeObserver (VString "z") z_on_two).2) = []
  ∧ contents 1 (reg (unsubscribeObserver (VString "z") z_on_two).2) =
    [Local (VString "z") (handler 0)].
Proof.
  split; [reflexivity|].
  by apply (rebinding_leaves_arrays 1 z_on_two); simpl; lia.
Defined.

(** ** One event name at a time *)

Lemma get_Bucket_elem k r o : Obj.get k o = Some (Bucket r) → (k, Bucket r) ∈ o.
Proof. intros H. by apply get_own_elem_of, ObjFacts.get_Bucket. Qed.

Lemma records_alloc k g l :
  sound g → records k (Registry (events g) (heap g ++ [l])) = records k g.
Proof.
  intros (_ & _ & Hvalid & _). unfold records. cbn [events].
  destruct (Obj.get k (events g)) as [[r|b]|] eqn:E; try done.
  apply contents_alloc. apply (Hvalid k). by apply get_Bucket_elem.
Qed.

Lemma records_write_ne k k' r l g :
  sound g → Obj.get k (events g) = Some (Bucket r) → k ≠ k' →
  records k' (Registry (events g) (<[r := l]> (heap g))) = records k' g.
Proof.
  intros (_ & _ & _ & Halias) Hk Hne. unfold records. cbn [events].
  destruct (Obj.get k' (events g)) as [[r'|b]|] eqn:E; try done.
  unfold contents. cbn [heap]. rewrite list_lookup_insert_ne; [done|].
  intros ->. apply Hne. apply (Halias k k' r'); by apply get_Bucket_elem.
Qed.

Lemma records_set_ne k k' v o h :
  k ≠ k' → records k' (Registry (Obj.set k v o) h) = records k' (Registry o h).
Proof. intros Hne. unfold records. cbn [events]. by rewrite ObjFacts.get_set_ne. Qed.

Lemma untouched_ensure_bucket k k' v b :
  k ≠ k' → preserves (untouched k' v b) (ensure_bucket k).
Proof.
  intros Hne s (Hs & Hv & Hb).
  split; [by apply preserves_sound_ensure_bucket|].
  unfold ensure_bucket. rewrite bind_run, read_event_run.
  destruct (Obj.get k (events (reg s))) as [x|]; step; cbn [snd reg events].
  - rewrite ObjFacts.get_set_ne by done. split; [done|].
    rewrite records_set_ne by done. by rewrite registry_eta.
  - rewrite ObjFacts.get_set_ne by done. split; [done|].
    rewrite records_set_ne by done. by rewrite records_alloc.
Qed.

Lemma untouched_push k k' v b x :
  k ≠ k' → preserves (untouched k' v b) (push k x).
Proof.
  intros Hne s (Hs & Hv & Hb).
  split; [by apply preserves_sound_push|].
  unfold push. rewrite bind_run, read_event_run.
  destruct (Obj.get k (events (reg s))) as [[r|bi]|] eqn:E; [|done..].
  step. cbn [snd reg events]. split; [done|].
  by rewrite (records_write_ne k k' r).
Qed.

Lemma untouched_subscribe eventName observer callback k' v b :
  to_string eventName ≠ k' →
  preserves (untouched k' v b) (subscribe eventName observer callback).
Proof.
  intros Hne. unfold subscribe. destruct (truthy eventName); [|by apply preserves_pure].
  destruct (truthy callback && is_function callback);
    [|destruct (test_http observer)];
    try (apply preserves_bind;
         [by apply untouched_ensure_bucket|intros _; by apply untouched_push]).
  by apply preserves_pure.
Qed.

Lemma untouched_unsubscribe eventName observer k' v b :
  to_string eventName ≠ k' →
  preserves (untouched k' v b) (unsubscribe eventName observer).
Proof.
  intros Hne s (Hs & Hv & Hb).
  split; [by apply preserves_sound_unsubscribe|].
  unfold unsubscribe. rewrite bind_run. cbn [get_registry].
  destruct (truthy eventName && Obj.has (to_string eventName) (events (reg s)));
    [|done].
  destruct (Obj.get (to_string eventName) _) as [[r|[|name [|n]]]|] eqn:E; try done.
  step. cbn [snd reg events]. split; [done|].
  by rewrite (records_write_ne (to_string eventName) k' r).
Qed.

(** X8.  On a sound registry, [subscribe] and [unsubscribe] on one event
    name change nothing under any other name: what the other name holds
    and its records are the same after the call, whatever the arguments
    and whether the call completes or throws. *)
Theorem other_events_untouched eventName k' s :
  sound (reg s) →
  to_string eventName ≠ k' →
  (∀ observer callback,
     Obj.get k' (events (reg (subscribe eventName observer callback s).2)) =
     Obj.get k' (events (reg s))
     ∧ records k' (reg (subscribe eventName observer callback s).2) = records k' (reg s))
  ∧ (∀ observer,
     Obj.get k' (events (reg (unsubscribe eventName observer s).2)) =
     Obj.get k' (events (reg s))
     ∧ records k' (reg (unsubscribe eventName observer s).2) = records k' (reg s)).
Proof.
  intros Hs Hne. split.
  - intros observer callback.
    by apply (untouched_subscribe eventName observer callback k' _ _ Hne s).
  - intros observer. by apply (untouched_unsubscribe eventName observer k' _ _ Hne s).
Qed.

Lemma other_events_untouched_witness :
  records "login"
    (reg (subscribe (VString "default") (VString "y") (handler 1) z_on_two).2) =
  [Local (VString "z") (handler 0)]
  ∧ records "default" (reg (unsubscribe (VString "login") (VString "z") z_on_two).2) =
    [Local (VString "z") (handler 0)].
Proof.
  split.
  - by apply (other_events_untouched (VString "default") "login" z_on_two z_on_two_sound).
  - by apply (other_events_untouched (VString "login") "default" z_on_two z_on_two_sound).
Defined.

(** ** [subscribeMultiple] *)

Lemma sound_free_or_bucket k g :
  sound g → ¬ holds_builtin k g → free_or_bucket k g.
Proof.
  intros (_ & _ & Hvalid & _) Hno. unfold free_or_bucket, bucket_at.
  destruct (Obj.get k (events g)) as [[r|b]|] eqn:E.
  - right. exists r.
    destruct (lookup_lt_is_Some_2 (heap g) r) as [l Hl]; [|by exists l].
    apply (Hvalid k). by apply get_Bucket_elem.
  - destruct Hno. by exists b.
  - by left.
Qed.

(** One registration on a sound registry. *)
Lemma ensure_push_records k x s :
  sound (reg s) →
  ¬ holds_builtin k (reg s) →
  ∃ g', (ensure_bucket k;; push k x) s = (Return (), State g' (trace s) (fresh s))
        ∧ sound g'
        ∧ (∀ k', ¬ holds_builtin k' (reg s) → ¬ holds_builtin k' g')
        ∧ (∀ k', records k' g' =
                 records k' (reg s) ++ if decide (k' = k) then [x] else []).
Proof.
  intros Hs Hno.
  destruct (ensure_push_spec k x s (sound_free_or_bucket _ _ Hs Hno))
    as (g' & r & Hrun & Hb).
  exists g'. split; [exact Hrun|].
  assert (Hg' : g' = reg ((ensure_bucket k;; push k x) s).2) by by rewrite Hrun.
  assert (Hother : ∀ k', k ≠ k' →
            untouched k' (Obj.get k' (events (reg s))) (records k' (reg s)) g').
  { intros k' Hne. rewrite Hg'.
    apply preserves_bind;
      [by apply untouched_ensure_bucket|intros _; by apply untouched_push|done]. }
  split_and!.
  - rewrite Hg'.
    apply preserves_bind;
      [apply preserves_sound_ensure_bucket|intros _; apply preserves_sound_push|done].
  - intros k' Hk' [b Hb'].
    destruct (decide (k = k')) as [<-|Hne].
    + destruct Hb as [Hget _]. congruence.
    + destruct (Hother k' Hne) as (_ & Hget & _). apply Hk'. exists b. congruence.
  - intros k'. destruct (decide (k' = k)) as [->|Hne].
    + exact (bucket_at_records _ _ _ _ Hb).
    + destruct (Hother k') as (_ & _ & ->); [done|]. by rewrite app_nil_r.
Qed.

Lemma count_key_cons k name names :
  count_key k (name :: names) =
  (if decide (k = to_string name) then 1 else 0) + count_key k names.
Proof.
  unfold count_key. rewrite filter_cons.
  destruct (decide (to_string name = k)) as [<-|H]; simpl.
  - by rewrite decide_True.
  - by rewrite decide_False.
Qed.

(** X9.  With an array of names and a function, on a sound registry where
    no name resolves to a built-in, [subscribeMultiple] completes without
    a diagnostic, and every event name gets at the end of its bucket one
    record of the observer and the function for each time it occurs among
    the names: once per occurrence, none under any other name. *)
Theorem subscribeMultiple_records a names observer f src s :
  sound (reg s) →
  Forall (λ name, ¬ holds_builtin (to_string name) (reg s)) names →
  ∃ g', subscribeMultiple (VArray a names) observer (VFunction f src) s =
          (Return (), State g' (trace s) (fresh s))
        ∧ ∀ k, records k g' =
               records k (reg s)
               ++ replicate (count_key k names) (Local observer (VFunction f src)).
Proof.
  unfold subscribeMultiple. cbn [truthy is_function andb].
  revert s. induction names as [|name names IH]; intros s Hs Hall.
  - exists (reg s). rewrite state_eta. split; [done|].
    intros k. by rewrite app_nil_r.
  - apply Forall_cons in Hall as [Hname Hall].
    cbn [for_each]. rewrite bind_run.
    destruct (ensure_push_records (to_string name) (Local observer (VFunction f src))
                s Hs Hname) as (g1 & -> & Hs1 & Hno1 & Hr1).
    destruct (IH (State g1 (trace s) (fresh s))) as (g' & -> & Hr); [done| |].
    { eapply Forall_impl; [exact Hall|]. intros n Hn. by apply Hno1. }
    exists g'. split; [done|]. intros k.
    rewrite Hr. cbn [reg]. rewrite Hr1, count_key_cons, <- app_assoc. f_equal.
    by destruct (decide (k = to_string name)).
Qed.

Lemma subscribeMultiple_records_witness :
  ∃ g', subscribeMultiple
          (VArray 0 [VString "signin"; VString "signout"; VString "signin"])
          (VString "z") (handler 0) initial = (Return (), State g' [] 0)
        ∧ records "signin" g' =
          [Local (VString "z") (handler 0); Local (VString "z") (handler 0)]
        ∧ records "signout" g' = [Local (VString "z") (handler 0)]
        ∧ records "default" g' = [].
Proof.
  destruct (subscribeMultiple_records 0
              [VString "signin"; VString "signout"; VString "signin"]
              (VString "z") 0 "function (data) {}" initial initial_sound)
    as (g' & Hrun & Hr).
  - repeat constructor; by intros [b Hb].
  - exists g'. split; [exact Hrun|]. by rewrite !Hr.
Defined.

Lemma for_each_ext {A} (l : list A) (f g : A → M unit) s :
  Forall (λ x, ∀ s, f x s = g x s) l → for_each l f s = for_each l g s.
Proof.
  intros H. revert s. induction H as [|x l Hx _ IH]; intros s; [done|].
  cbn [for_each]. rewrite !bind_run, Hx.
  destruct (g x s) as [[[]|e] s']; [apply IH|done].
Qed.

(** X10.  With a function, [subscribeMultiple] on an array of truthy names
    is the sequence of [subscribe] calls, one per name in the order of the
    array.  It is not when a name is falsy: [subscribe] rejects the name
    with a diagnostic, [subscribeMultiple] registers under it. *)
Theorem subscribeMultiple_as_subscribes a names observer f src s :
  Forall (λ name, truthy name = true) names →
  subscribeMultiple (VArray a names) observer (VFunction f src) s =
  for_each names (λ name, subscribe name observer (VFunction f src)) s.
Proof.
  unfold subscribeMultiple. cbn [truthy is_function andb].
  intros Hall. apply for_each_ext.
  eapply Forall_impl; [exact Hall|].
  intros name Hname s'. unfold subscribe. by rewrite Hname.
Qed.

Lemma subscribeMultiple_as_subscribes_witness :
  subscribeMultiple (VArray 0 [VString "signin"; VString "signout"]) (VString "z")
    (handler 0) initial =
  (subscribe (VString "signin") (VString "z") (handler 0);;
   subscribe (VString "signout") (VString "z") (handler 0);; mret ()) initial
  ∧ (subscribeMultiple (VArray 0 [VString ""]) (VString "z") (handler 0) initial).2 ≠
    (subscribe (VString "") (VString "z") (handler 0) initial).2.
Proof.
  split; [|discriminate].
  apply (subscribeMultiple_as_subscribes 0 [VString "signin"; VString "signout"]
           (VString "z") 0 "function (data) {}" initial).
  by repeat constructor.
Defined.

(** ** [initialize] *)

Lemma reset_keys_spec ks :
  ∀ s,
    NoDup ks → "__proto__" ∉ ks →
    ∃ g', for_each ks (λ listener, r ← new_array []; write_event listener (Bucket r)) s =
            (Return (), State g' (trace s) (fresh s))
          ∧ heap (reg s) `prefix_of` heap g'
          ∧ (∀ k, k ∉ ks → Obj.get k (events g') = Obj.get k (events (reg s)))
          ∧ (∀ k, k ∈ ks → ∃ r', bucket_at k g' r' []).
Proof.
  induction ks as [|k ks IH]; intros s Hnd Hproto.
  - exists (reg s). rewrite state_eta. split; [done|]. split; [done|].
    split; [done|]. intros k H. by apply elem_of_nil in H.
  - apply NoDup_cons in Hnd as [Hk Hnd].
    apply not_elem_of_cons in Hproto as [Hkp Hproto].
    cbn [for_each]. step.
    set (s1 := State _ _ _).
    destruct (IH s1 Hnd Hproto) as (g' & -> & Hpre & Hout & Hin).
    exists g'. subst s1. cbn [reg heap events trace fresh] in *.
    split; [done|]. split; [|split].
    + etrans; [|exact Hpre]. by apply prefix_app_r.
    + intros k' [Hne Hk']%not_elem_of_cons.
      rewrite Hout by done. by apply ObjFacts.get_set_ne.
    + intros k' [->|Hk']%elem_of_cons; [|by apply Hin].
      exists (length (heap (reg s))). split.
      * rewrite Hout by done. apply ObjFacts.get_set_own. by intros ->.
      * eapply prefix_lookup_Some; [|exact Hpre]. by apply list_lookup_middle.
Qed.

Lemma keys_perm o : Obj.keys o ≡ₚ o.*1.
Proof. unfold Obj.keys. by rewrite ObjFacts.entries_perm. Qed.

Lemma initialize_spec s :
  sound (reg s) →
  ∃ g', initialize s = (Return (), State g' (trace s) (fresh s))
        ∧ (∀ k, k ∈ (events (reg s)).*1 → ∃ r', bucket_at k g' r' [])
        ∧ (∀ k, k ∉ (events (reg s)).*1 →
             Obj.get k (events g') = Obj.get k (events (reg s))).
Proof.
  intros (Hnd & Hproto & _).
  unfold initialize. rewrite bind_run. cbn [get_registry].
  destruct (reset_keys_spec (Obj.keys (events (reg s))) s) as (g' & -> & _ & Hout & Hin).
  - by rewrite keys_perm.
  - by rewrite keys_perm.
  - exists g'. split; [done|]. split.
    + intros k Hk. apply Hin. by rewrite keys_perm.
    + intros k Hk. apply Hout. by rewrite keys_perm.
Qed.

Lemma isSubscribed_empty eventName g r :
  bucket_at (to_string eventName) g r [] → isSubscribed eventName g = false.
Proof.
  intros [Hget Hheap]. unfold isSubscribed, Obj.has. rewrite Hget.
  cbn [slot_nonempty andb]. unfold contents. by rewrite Hheap.
Qed.

(** X11.  On a sound registry [initialize] completes and logs nothing;
    every event name that [events] has holds a new empty bucket
    afterwards, also a name that held a built-in instead of a bucket, and
    [isSubscribed] answers false for it; a name that [events] does not
    have resolves as before, so none is added. *)
Theorem initialize_resets s :
  sound (reg s) →
  ∃ g', initialize s = (Return (), State g' (trace s) (fresh s))
        ∧ (∀ k, k ∈ (events (reg s)).*1 →
             (∃ r', bucket_at k g' r' []) ∧ isSubscribed (VString k) g' = false)
        ∧ (∀ k, k ∉ (events (reg s)).*1 →
             Obj.get k (events g') = Obj.get k (events (reg s))).
Proof.
  intros Hs. destruct (initialize_spec s Hs) as (g' & Hrun & Hin & Hout).
  exists g'. split; [exact Hrun|]. split; [|exact Hout].
  intros k Hk. destruct (Hin k Hk) as [r' Hr']. split; [by exists r'|].
  by apply (isSubscribed_empty (VString k) g' r').
Qed.

Lemma initialize_resets_witness :
  ∃ g', initialize z_on_two = (Return (), State g' [] 0)
        ∧ isSubscribed (VString "login") (reg z_on_two) = true
        ∧ isSubscribed (VString "login") g' = false
        ∧ isSubscribed (VString "default") g' = false.
Proof.
  destruct (initialize_resets z_on_two z_on_two_sound) as (g' & Hrun & Hin & _).
  exists g'. split; [exact Hrun|]. split; [reflexivity|]. split.
  - apply (Hin "login"). compute_done.
  - apply (Hin "default"). compute_done.
Defined.

(** X12.  After [initialize], or [clearEventListeners], which is the same,
    a [publish] on any event name that [events] has does nothing at all: no callback is called, nothing is sent or
    logged, and the state is the one [initialize] left, whatever was
    subscribed before. *)
Theorem publish_after_initialize_silent invoke win eventName data s :
  sound (reg s) →
  to_string eventName ∈ (events (reg s)).*1 →
  (initialize;; publish invoke win eventName data) s = initialize s
  ∧ (clearEventListeners;; publish invoke win eventName data) s = clearEventListeners s.
Proof.
  intros Hs Hk. unfold clearEventListeners.
  cut ((initialize;; publish invoke win eventName data) s = initialize s); [done|].
  destruct (initialize_spec s Hs) as (g' & Hrun & Hin & _).
  rewrite bind_run, Hrun.
  destruct (Hin _ Hk) as (r' & Hget & Hheap).
  unfold publish, forEach. rewrite bind_run, read_event_run. cbn [reg].
  rewrite Hget, bind_run, read_array_run. unfold contents. cbn [reg].
  by rewrite Hheap.
Qed.

Lemma publish_after_initialize_silent_witness :
  (initialize;; publish first_throws alone (VString "evt") VNull) two_on_evt =
  initialize two_on_evt.
Proof.
  apply (publish_after_initialize_silent first_throws alone (VString "evt") VNull
           two_on_evt).
  - change (reg two_on_evt)
      with (reg ((subscribe (VString "evt") (VString "w") (handler 0);;
                  subscribe (VString "evt") (VString "v") (handler 1)) initial).2).
    apply preserves_bind; [apply preserves_sound_subscribe| |apply initial_sound].
    intros _. apply preserves_sound_subscribe.
  - compute_done.
Defined.

(** ** Subscribing and unsubscribing again *)

(** Only [NaN] is not [===] to itself, and nothing is [===] to [NaN]. *)
Lemma strict_eq_never v : strict_eq v v = false → ∀ w, strict_eq w v = false.
Proof.
  intros Hv w.
  assert (Hnan : v = VNumber NaN).
  { destruct v as [| |[]|[|z]|s|f src|a l|a l]; simpl in Hv; try done.
    - by rewrite Z.eqb_refl in Hv.
    - by rewrite String.eqb_refl in Hv.
    - by rewrite Nat.eqb_refl in Hv.
    - by rewrite Nat.eqb_refl in Hv.
    - by rewrite Nat.eqb_refl in Hv. }
  subst v. by destruct w as [| |[]|[|z]|s|f src|a l|a l].
Qed.

Lemma splice_first_never observer b :
  (∀ w, strict_eq w observer = false) → splice_first observer b = b.
Proof.
  intros H. induction b as [|x b IH]; simpl; [done|]. by rewrite H, IH.
Qed.

Lemma splice_first_app observer b x :
  strict_eq (observer_of x) observer = true →
  splice_first observer (b ++ [x]) =
  if decide (count_observer observer b = 0) then b
  else splice_first observer b ++ [x].
Proof.
  intros Hx. induction b as [|y b IH]; simpl.
  - by rewrite Hx.
  - rewrite count_observer_cons.
    destruct (strict_eq (observer_of y) observer) eqn:E; simpl; [done|].
    rewrite IH. by destruct (decide (count_observer observer b = 0)).
Qed.

Lemma unsubscribe_bucket eventName observer s r b :
  truthy eventName = true →
  bucket_at (to_string eventName) (reg s) r b →
  unsubscribe eventName observer s =
  (Return (),
   State (Registry (events (reg s)) (<[r := splice_first observer b]> (heap (reg s))))
     (trace s) (fresh s)).
Proof.
  intros He [Hget Hheap].
  unfold unsubscribe, Obj.has. rewrite bind_run. cbn [get_registry].
  rewrite He, Hget. cbn [andb]. step.
  unfold contents. by rewrite Hheap.
Qed.

(** X13.  [addEventListener] followed by [removeEventListener] for the
    same observer, with a truthy event name that is free or holds a
    bucket.  For an observer that [===] itself, the bucket is back to the
    records it had when the observer had none; when the observer had a
    record already, the one removed is its earliest, and the new record
    stays, last in the bucket.  The observer [NaN] equals nothing, itself
    included: its record cannot be removed and stays.  The callback given to
    [removeEventListener] plays no part. *)
Theorem add_then_remove_listener eventName observer f src callback s :
  truthy eventName = true →
  free_or_bucket (to_string eventName) (reg s) →
  ∃ g', (addEventListener eventName observer (VFunction f src);;
         removeEventListener eventName observer callback) s =
          (Return (), State g' (trace s) (fresh s))
        ∧ records (to_string eventName) g' =
          if strict_eq observer observer then
            if decide (count_observer observer (records (to_string eventName) (reg s)) = 0)
            then records (to_string eventName) (reg s)
            else splice_first observer (records (to_string eventName) (reg s))
                 ++ [Local observer (VFunction f src)]
          else records (to_string eventName) (reg s)
               ++ [Local observer (VFunction f src)].
Proof.
  intros He Hk. unfold addEventListener, removeEventListener.
  rewrite bind_run. unfold subscribe. rewrite He. cbn [truthy is_function andb].
  destruct (ensure_push_spec _ (Local observer (VFunction f src)) s Hk)
    as (g1 & r & -> & Hb).
  rewrite (unsubscribe_bucket eventName observer (State g1 (trace s) (fresh s)) r _ He Hb).
  eexists. split; [done|]. cbn [reg].
  destruct Hb as [Hget Hheap].
  unfold records at 1. cbn [events]. rewrite Hget.
  unfold contents. cbn [heap].
  rewrite list_lookup_insert_eq by by eapply lookup_lt_Some.
  cbn [default]. destruct (strict_eq observer observer) eqn:Hself.
  - by apply splice_first_app.
  - apply splice_first_never. by apply strict_eq_never.
Qed.

Lemma add_then_remove_listener_witness :
  (∃ g', (addEventListener (VString "login") (VString "x") (handler 3);;
          removeEventListener (VString "login") (VString "x") (handler 3)) x_twice =
           (Return (), State g' [] 0)
         ∧ records "login" g' =
           [Local (VString "y") (handler 1); Local (VString "x") (handler 2);
            Local (VString "x") (handler 3)])
  ∧ (∃ g', (addEventListener (VString "login") (VNumber NaN) (handler 3);;
            removeEventListener (VString "login") (VNumber NaN) (handler 3)) initial =
             (Return (), State g' [] 0)
           ∧ records "login" g' = [Local (VNumber NaN) (handler 3)]).
Proof.
  split.
  - destruct (add_then_remove_listener (VString "login") (VString "x") 3
                "function (data) {}" (handler 3) x_twice eq_refl) as (g' & Hrun & Hr).
    + right. by exists 1, [Local (VString "x") (handler 0); Local (VString "y") (handler 1);
                           Local (VString "x") (handler 2)].
    + exists g'. split; [exact Hrun|]. exact Hr.
  - destruct (add_then_remove_listener (VString "login") (VNumber NaN) 3
                "function (data) {}" (handler 3) initial eq_refl) as (g' & Hrun & Hr).
    + left. reflexivity.
    + exists g'. split; [exact Hrun|]. exact Hr.
Defined.

(** ** Event names that [Object.prototype] has *)

Lemma inherited_name_truthy k b : object_prototype k = Some b → truthy (VString k) = true.
Proof.
  intros H. simpl. destruct (String.eqb k "") eqn:E; [|done].
  apply String.eqb_eq in E as ->. discriminate.
Qed.

(** X14.  [subscribe] with a record to register (a function, or an
    observer that starts with "http") on an event name that
    [Object.prototype] has and [events] has not of its own: the call throws
    a [TypeError] and registers nothing, yet it leaves its mark: the
    assignment that should create the bucket has made the built-in an own
    property of [events] (for every such name but [__proto__]). *)
Theorem subscribe_inherited_name k b observer callback s :
  object_prototype k = Some b →
  Obj.get_own k (events (reg s)) = None →
  (truthy callback && is_function callback) || test_http observer = true →
  subscribe (VString k) observer callback s =
    (Throw (TypeError "this.events[eventName].push is not a function"),
     State (Registry (Obj.set k (Inherited b) (events (reg s))) (heap (reg s)))
       (trace s) (fresh s))
  ∧ records k (Registry (Obj.set k (Inherited b) (events (reg s))) (heap (reg s))) = []
  ∧ (k ≠ "__proto__" →
     Obj.get_own k (Obj.set k (Inherited b) (events (reg s))) = Some (Inherited b)).
Proof.
  intros Hproto Hown Hrec.
  assert (Hget : Obj.get k (events (reg s)) = Some (Inherited b)).
  { unfold Obj.get. by rewrite Hown, Hproto. }
  assert (Hget' : Obj.get k (Obj.set k (Inherited b) (events (reg s))) = Some (Inherited b)).
  { unfold Obj.set. destruct (String.eqb k "__proto__") eqn:E; [done|].
    unfold Obj.get. by rewrite ObjFacts.get_own_set_own_eq. }
  split_and!.
  - assert (Hboth : ∀ x,
      (ensure_bucket k;; push k x) s =
      (Throw (TypeError "this.events[eventName].push is not a function"),
       State (Registry (Obj.set k (Inherited b) (events (reg s))) (heap (reg s)))
         (trace s) (fresh s))).
    { intros x. unfold ensure_bucket, push. step. rewrite Hget. step. by rewrite Hget'. }
    unfold subscribe. rewrite (inherited_name_truthy k b Hproto). cbn [to_string].
    destruct (truthy callback && is_function callback); [apply Hboth|].
    cbn [orb] in Hrec. rewrite Hrec. apply Hboth.
  - unfold records. cbn [events]. by rewrite Hget'.
  - intros Hne. unfold Obj.set.
    destruct (String.eqb k "__proto__") eqn:E; [by apply String.eqb_eq in E|].
    apply ObjFacts.get_own_set_own_eq.
Qed.

Lemma subscribe_inherited_name_witness :
  subscribe (VString "toString") (VString "z") (handler 0)
    (State (Registry [("default", Bucket 0)] [[Local (VString "z") (handler 0)]]) [] 0) =
  (Throw (TypeError "this.events[eventName].push is not a function"), poisoned).
Proof.
  apply (subscribe_inherited_name "toString" (BuiltinFunction "toString" 0)
           (VString "z") (handler 0)
           (State (Registry [("default", Bucket 0)] [[Local (VString "z") (handler 0)]])
              [] 0)); reflexivity.
Defined.

Lemma filter_entries_throws observer es k b :
  (k, Inherited b) ∈ es →
  ∀ s, ∃ s', for_each es (filter_entry observer) s =
             (Throw (TypeError "value.filter is not a function"), s').
Proof.
  induction es as [|[k0 v0] es IH]; intros Hin s.
  - by apply elem_of_nil in Hin.
  - cbn [for_each filter_entry]. destruct v0 as [r|b0].
    + apply elem_of_cons in Hin as [[=]|Hin]. step. by apply IH.
    + by eexists.
Qed.

(** X15.  Once [events] has an own property that holds a built-in instead
    of a bucket, as a failed [subscribe] leaves one, every
    [unsubscribeObserver] with a truthy observer throws a [TypeError]:
    the loop reaches a value that has no [filter]. *)
Theorem unsubscribeObserver_throws_on_builtin observer k b s :
  truthy observer = true →
  (k, Inherited b) ∈ events (reg s) →
  ∃ s', unsubscribeObserver observer s =
        (Throw (TypeError "value.filter is not a function"), s').
Proof.
  intros Ho Hin. rewrite unsubscribeObserver_truthy by done.
  apply (filter_entries_throws observer _ k b).
  by rewrite ObjFacts.entries_perm.
Qed.

Lemma unsubscribeObserver_throws_on_builtin_witness :
  ∃ s', unsubscribeObserver (VString "z") poisoned =
        (Throw (TypeError "value.filter is not a function"), s').
Proof.
  apply (unsubscribeObserver_throws_on_builtin (VString "z") "toString"
           (BuiltinFunction "toString" 0) poisoned); [reflexivity|right; left].
Defined.

(** ** [isSubscribed] *)

(** For an event name that does not resolve to a built-in,
    [isSubscribed] is true exactly when the name holds records, and
    whenever it is true [isSubscribedByWho] is not [null]. *)
Theorem isSubscribed_iff_records eventName g :
  ¬ holds_builtin (to_string eventName) g →
  (isSubscribed eventName g = true ↔ records (to_string eventName) g ≠ [])
  ∧ (isSubscribed eventName g = true → isSubscribedByWho eventName g ≠ None).
Proof.
  intros Hno. unfold isSubscribed, isSubscribedByWho, Obj.has, records.
  destruct (Obj.get (to_string eventName) (events g)) as [[r|b]|] eqn:E.
  - cbn [andb slot_nonempty]. split; [|done].
    destruct (contents r g); simpl; split; done.
  - destruct Hno. by exists b.
  - split; [split; done|done].
Qed.

Lemma isSubscribed_iff_records_witness :
  isSubscribed (VString "login") (reg z_on_two) = true
  ↔ records "login" (reg z_on_two) ≠ [].
Proof.
  apply (isSubscribed_iff_records (VString "login") (reg z_on_two)).
  by intros [b Hb].
Defined.

(** ** The message listener, branch by branch *)

Lemma plain_in_type a props :
  plain_message props → in_operator "type" (VObject a props) = Return false.
Proof. intros [H _]. cbn [in_operator has_field]. by rewrite H. Qed.

Lemma plain_constructor a props :
  plain_message props → constructor_is_Object (VObject a props) = Return true.
Proof. intros [_ H]. cbn [constructor_is_Object]. by rewrite H. Qed.

Ltac enter_plain_message Hplain :=
  unfold on_message; cbn [isTrusted data];
  rewrite bind_run; unfold lift;
  rewrite (plain_in_type _ _ Hplain); cbn beta iota;
  rewrite bind_run; cbn [mret M_ret];
  rewrite bind_run, (plain_constructor _ _ Hplain); cbn beta iota.

Lemma ensure_push_trace k x s :
  trace ((ensure_bucket k;; push k x) s).2 = trace s
  ∧ fresh ((ensure_bucket k;; push k x) s).2 = fresh s.
Proof.
  unfold ensure_bucket, push. step.
  destruct (Obj.get k (events (reg s))) as [v|]; step;
    destruct (Obj.get k _) as [[r|b]|]; by step.
Qed.

(** All that [subscribe] does to the outside is to log its diagnostic,
    when the event name is falsy. *)
Lemma subscribe_trace eventName observer callback s :
  trace (subscribe eventName observer callback s).2 =
    trace s ++ (if truthy eventName then []
                else [ErrorSubscribe (Obj.keys (events (reg s)))])
  ∧ fresh (subscribe eventName observer callback s).2 = fresh s.
Proof.
  unfold subscribe. destruct (truthy eventName).
  - rewrite app_nil_r.
    destruct (truthy callback && is_function callback);
      [|destruct (test_http observer)];
      try (destruct (ensure_push_trace (to_string eventName)
                       (Local observer callback) s) as [-> ->]);
      try (destruct (ensure_push_trace (to_string eventName)
                       (Remote observer callback) s) as [-> ->]);
      done.
  - by step.
Qed.

Section Listener.

Variable invoke : fid → value → registry → registry * option value.
Variable win : window.
Variable resolver : value → value → registry → registry * outcome value.

(** The control calls: a plain message whose method is a path that
    contains "pubsub". *)
Lemma listener_control a props path s :
  plain_message props →
  own_prop "method" props = Some (VString path) →
  Str.contains_ci "pubsub" path = true →
  on_message invoke win resolver (MessageEvent true (VObject a props)) s =
  (if String.eqb (Str.last_segment path) "subscribe"
      || String.eqb (Str.last_segment path) "subscribeMultiple"
   then subscribe (field "args" (VObject a props)) (field "observer" (VObject a props))
          (VObject a props)
   else if String.eqb (Str.last_segment path) "unsubscribe"
   then subscribe (field "args" (VObject a props)) (field "observer" (VObject a props))
          VUndefined
   else if String.eqb (Str.last_segment path) "unsubscribeObserver"
   then subscribe (field "observer" (VObject a props)) VUndefined VUndefined
   else mret ()) s.
Proof.
  intros Hplain Hmethod Hpubsub.
  assert (H3 : has_field "method" (VObject a props) = true).
  { cbn [has_field]. by rewrite Hmethod. }
  assert (H4 : field "method" (VObject a props) = VString path).
  { cbn [field]. by rewrite Hmethod. }
  enter_plain_message Hplain.
  rewrite H3, H4. rewrite bind_run. cbn [test_subject stringifies to_string].
  by rewrite Hpubsub.
Qed.

(** X16.  A control call never answers and never calls a subscriber: for
    every trusted plain message whose method path contains "pubsub",
    whatever its last segment and its other fields, the only thing the
    listener may do to the outside is to log the diagnostic of [subscribe],
    once.  It sends no message, calls no callback, runs no resolver and
    creates no object. *)
Theorem listener_control_sends_nothing a props path s :
  plain_message props →
  own_prop "method" props = Some (VString path) →
  Str.contains_ci "pubsub" path = true →
  ∃ t, trace (on_message invoke win resolver (MessageEvent true (VObject a props)) s).2 =
         trace s ++ t
       ∧ (t = [] ∨ t = [ErrorSubscribe (Obj.keys (events (reg s)))])
       ∧ fresh (on_message invoke win resolver (MessageEvent true (VObject a props)) s).2 =
         fresh s.
Proof.
  intros Hplain Hmethod Hpubsub.
  rewrite (listener_control a props path s) by done.
  assert (Hsub : ∀ e o c,
    ∃ t, trace (subscribe e o c s).2 = trace s ++ t
         ∧ (t = [] ∨ t = [ErrorSubscribe (Obj.keys (events (reg s)))])
         ∧ fresh (subscribe e o c s).2 = fresh s).
  { intros e o c. destruct (subscribe_trace e o c s) as [Ht Hf].
    eexists. split; [exact Ht|]. split; [|exact Hf].
    destruct (truthy e); [by left|by right]. }
  destruct (_ || _); [apply Hsub|].
  destruct (String.eqb _ "unsubscribe"); [apply Hsub|].
  destruct (String.eqb _ "unsubscribeObserver"); [apply Hsub|].
  exists []. rewrite app_nil_r. split; [done|]. split; [by left|done].
Qed.

(** X17.  A subscription that arrives as a message is always a remote
    one.  With the last segment [subscribe] or [subscribeMultiple], truthy
    [args] and an event name (the string of [args]) that is free or holds a
    bucket, [args] and [observer] being values whose conversion to a string
    completes, the listener completes; when the observer starts with "http"
    it appends the record of the observer with the whole message as
    payload, otherwise it registers nothing.  An array of names in [args]
    is one event name, the names joined by commas. *)
Theorem listener_subscribe_is_remote a props path s :
  plain_message props →
  own_prop "method" props = Some (VString path) →
  Str.contains_ci "pubsub" path = true →
  Str.last_segment path = "subscribe" ∨ Str.last_segment path = "subscribeMultiple" →
  truthy (field "args" (VObject a props)) = true →
  stringifies (field "args" (VObject a props)) = true →
  stringifies (field "observer" (VObject a props)) = true →
  free_or_bucket (to_string (field "args" (VObject a props))) (reg s) →
  ∃ g', on_message invoke win resolver (MessageEvent true (VObject a props)) s =
          (Return (), State g' (trace s) (fresh s))
        ∧ records (to_string (field "args" (VObject a props))) g' =
          records (to_string (field "args" (VObject a props))) (reg s)
          ++ if test_http (field "observer" (VObject a props))
             then [Remote (field "observer" (VObject a props)) (VObject a props)]
             else [].
Proof.
  intros Hplain Hmethod Hpubsub Hseg Hargs _ _ Hk.
  rewrite (listener_control a props path s) by done.
  assert (String.eqb (Str.last_segment path) "subscribe"
          || String.eqb (Str.last_segment path) "subscribeMultiple" = true) as ->.
  { destruct Hseg as [-> | ->]; reflexivity. }
  destruct (subscribe_spec _ (field "observer" (VObject a props)) (VObject a props)
              s Hargs Hk) as (g' & -> & _ & Hr).
  exists g'. split; [done|]. rewrite Hr. f_equal.
  cbn [record_of truthy is_function andb].
  by destruct (test_http _).
Qed.

Lemma try_catch_emit_returns (m : M unit) (f : exn → effect) s :
  ∃ s', try_catch m (λ e, emit (f e)) s = (Return (), s').
Proof.
  unfold try_catch. destruct (m s) as [[[]|e] s1]; by eexists.
Qed.

(** X18.  Outside the control calls the listener contains every failure:
    for a trusted plain message whose method, if it has one, converts to a
    string that does not mention "pubsub", the listener completes whatever
    the resolver and the bridge do; what they throw is caught and logged.
    The one failure it lets through is the conversion of the method
    itself, which happens before the [try]: a method that does not convert
    makes the listener throw a [TypeError], with nothing done. *)
Theorem listener_contains_failures a props s :
  plain_message props →
  (stringifies (field "method" (VObject a props)) = true →
   Str.contains_ci "pubsub" (to_string (field "method" (VObject a props))) = false →
   ∃ s', on_message invoke win resolver (MessageEvent true (VObject a props)) s =
         (Return (), s'))
  ∧ (stringifies (field "method" (VObject a props)) = false →
     on_message invoke win resolver (MessageEvent true (VObject a props)) s =
     (Throw (TypeError "cannot convert object to primitive value"), s)).
Proof.
  intros Hplain. split.
  - intros Hstr Hnot. enter_plain_message Hplain.
    destruct (has_field "method" (VObject a props)).
    { rewrite bind_run. unfold test_subject. rewrite Hstr, Hnot.
      apply try_catch_emit_returns. }
    destruct (has_field "getter" (VObject a props)).
    { apply (try_catch_emit_returns _ (λ e, ErrorResolver "getter" e (VObject a props))). }
    destruct (has_field "rest" (VObject a props)).
    { apply (try_catch_emit_returns _ (λ e, ErrorResolver "rest" e (VObject a props))). }
    by eexists.
  - intros Hstr. enter_plain_message Hplain.
    assert (Hhas : has_field "method" (VObject a props) = true).
    { cbn [has_field field] in *.
      destruct (own_prop "method" props); [by apply bool_decide_eq_true|done]. }
    rewrite Hhas, bind_run. unfold test_subject. by rewrite Hstr.
Qed.

Lemma resolve_throws path args s :
  (∀ p x g, ∃ g' e, resolver p x g = (g', Throw e)) →
  ∃ g' e, resolve resolver path args s = (Throw e, State g' (trace s) (fresh s)).
Proof.
  intros H. unfold resolve. destruct (H path args (reg s)) as (g' & e & ->).
  by exists g', e.
Qed.

(** X19.  When the resolver throws (as it does when the application has
    supplied none), a request by [method], [getter] or [rest] gets no
    answer: the listener completes, logs the one failure with the message,
    and sends nothing.  The method, if there is one, converts to a string
    that does not mention "pubsub". *)
Theorem listener_failed_resolution_unanswered a props s :
  plain_message props →
  stringifies (field "method" (VObject a props)) = true →
  Str.contains_ci "pubsub" (to_string (field "method" (VObject a props))) = false →
  has_field "method" (VObject a props) || has_field "getter" (VObject a props)
    || has_field "rest" (VObject a props) = true →
  (∀ p x g, ∃ g' e, resolver p x g = (g', Throw e)) →
  ∃ g' site e,
    on_message invoke win resolver (MessageEvent true (VObject a props)) s =
    (Return (),
     State g' (trace s ++ [ErrorResolver site e (VObject a props)]) (fresh s)).
Proof.
  intros Hplain Hstr Hnot Hreq Hthrows. enter_plain_message Hplain.
  destruct (has_field "method" (VObject a props)).
  { rewrite bind_run. unfold test_subject. rewrite Hstr, Hnot.
    unfold try_catch. rewrite bind_run.
    destruct (resolve_throws (field "method" (VObject a props))
                (field "args" (VObject a props)) s Hthrows) as (g' & e & ->).
    by exists g', "method", e. }
  destruct (has_field "getter" (VObject a props)).
  { unfold try_catch. rewrite bind_run. unfold test_subject.
    destruct (stringifies (field "getter" (VObject a props))).
    - destruct (Str.contains_ci "async" _); rewrite bind_run;
        destruct (resolve_throws (field "getter" (VObject a props))
                    (field "args" (VObject a props)) s Hthrows) as (g' & e & ->);
        by exists g', "getter", e.
    - by eexists (reg s), "getter", _. }
  destruct (has_field "rest" (VObject a props)); [|done].
  unfold try_catch. rewrite bind_run.
  destruct (resolve_throws (field "rest" (VObject a props))
              (field "args" (VObject a props)) s Hthrows) as (g' & e & ->).
  by exists g', "rest", e.
Qed.

(** X20.  An authorization response goes to the subscribers of
    "postMessage", whatever else the message holds: with a [type] that
    converts to a string containing "authorization_response", a truthy
    [response] and a bucket for "postMessage", the listener calls every
    callback of the bucket with the response, once and in order (none of
    them taking a record of the bucket away).  Then it merges the response
    into the application object [app] and completes; on a page that
    defines no [app] it throws there, the callbacks having run.  A [method]
    of the same message is not run. *)
Theorem listener_authorization_response a props type response s r b :
  own_prop "type" props = Some type →
  stringifies type = true →
  Str.contains "authorization_response" (to_string type) = true →
  own_prop "response" props = Some response →
  truthy response = true →
  bucket_at "postMessage" (reg s) r b →
  keeps_prefix invoke r (length b) →
  ∃ t, on_message invoke win resolver (MessageEvent true (VObject a props)) s =
         (if app win
          then (Return (),
                State (after_all invoke response b (reg s))
                  (trace s ++ t ++ [AssignAppPostMessage response]) (fresh s))
          else (Throw (ReferenceError "app is not defined"),
                State (after_all invoke response b (reg s)) (trace s ++ t) (fresh s)))
       ∧ calls t = (λ f, (f, response)) <$> callbacks_of b.
Proof.
  intros Htype Hstr Hauth Hresp Htruthy Hb Hkeep.
  assert (H1 : in_operator "type" (VObject a props) = Return true).
  { cbn [in_operator has_field]. by rewrite Htype. }
  assert (H2 : field "type" (VObject a props) = type).
  { cbn [field]. by rewrite Htype. }
  assert (H3 : field "response" (VObject a props) = response).
  { cbn [field]. by rewrite Hresp. }
  unfold on_message. cbn [isTrusted data].
  rewrite bind_run. unfold lift. rewrite H1, H2, H3. cbn beta iota.
  rewrite !bind_run. unfold test_subject. rewrite Hstr. cbn [mret M_ret].
  rewrite Hauth. unfold or_empty. rewrite Htruthy.
  rewrite bind_run. cbn [mret M_ret]. rewrite bind_run.
  rewrite (publish_bucket invoke win (VString "postMessage") response s r b) by done.
  destruct (for_each_dispatch invoke win (VString "postMessage") response b s)
    as (t & -> & Ht).
  exists t. split; [|done]. destruct (app win); [|done].
  rewrite bind_run. cbn [mret M_ret]. rewrite emit_run.
  cbn [reg trace fresh]. by rewrite app_assoc.
Qed.

End Listener.

Lemma listener_control_sends_nothing_witness :
  ∃ t, trace (on_message quiet three_frames absent_resolver
                (MessageEvent true message_subscribe_many) initial).2 = [] ++ t
       ∧ (t = [] ∨ t = [ErrorSubscribe (Obj.keys (events (reg initial)))]).
Proof.
  destruct (listener_control_sends_nothing quiet three_frames absent_resolver 3
              [("observer", VString "https://x/");
               ("method", VString "app.pubsub.subscribeMultiple");
               ("args", VArray 4 [VString "signin"; VString "signout"])]
              "app.pubsub.subscribeMultiple" initial)
    as (t & Ht & Hc & _); [by split|reflexivity|reflexivity|].
  by exists t.
Defined.

Lemma listener_subscribe_is_remote_witness :
  ∃ g', on_message quiet three_frames absent_resolver
          (MessageEvent true message_subscribe_many) initial = (Return (), State g' [] 0)
        ∧ records "signin,signout" g' =
          [Remote (VString "https://x/") message_subscribe_many].
Proof.
  destruct (listener_subscribe_is_remote quiet three_frames absent_resolver 3
              [("observer", VString "https://x/");
               ("method", VString "app.pubsub.subscribeMultiple");
               ("args", VArray 4 [VString "signin"; VString "signout"])]
              "app.pubsub.subscribeMultiple" initial)
    as (g' & Hrun & Hr);
    [by split|reflexivity|reflexivity|by right|reflexivity|reflexivity|reflexivity| |].
  - left. reflexivity.
  - exists g'. split; [exact Hrun|]. exact Hr.
Defined.

Lemma listener_contains_failures_witness :
  (∃ s', on_message quiet three_frames absent_resolver
           (MessageEvent true message_method) initial = (Return (), s'))
  ∧ on_message quiet three_frames absent_resolver
      (MessageEvent true message_unconvertible) initial =
    (Throw (TypeError "cannot convert object to primitive value"), initial).
Proof.
  split.
  - apply (listener_contains_failures quiet three_frames absent_resolver 5
             [("observer", VString "https://x/");
              ("method", VString "app.auth.getToken");
              ("args", VNull)] initial); [by split|reflexivity|reflexivity].
  - apply (listener_contains_failures quiet three_frames absent_resolver 8
             [("observer", VString "https://x/");
              ("method", VObject 9 [("toString", VString "x")])] initial);
      [by split|reflexivity].
Defined.

Lemma listener_failed_resolution_unanswered_witness :
  ∃ g' site e,
    on_message quiet three_frames absent_resolver
      (MessageEvent true message_method) initial =
    (Return (), State g' [ErrorResolver site e message_method] 0).
Proof.
  apply (listener_failed_resolution_unanswered quiet three_frames absent_resolver 5
           [("observer", VString "https://x/");
            ("method", VString "app.auth.getToken");
            ("args", VNull)] initial); [by split|reflexivity|reflexivity|reflexivity|].
  intros p x g. by eexists _, _.
Defined.

Lemma listener_authorization_response_witness :
  (∃ t, on_message first_throws alone absent_resolver
          (MessageEvent true message_authorization) two_on_postMessage =
          (Return (),
           State (reg two_on_postMessage)
             ([] ++ t ++ [AssignAppPostMessage (VObject 7 [("token", VString "t")])]) 0)
        ∧ calls t = [(0, VObject 7 [("token", VString "t")]);
                     (1, VObject 7 [("token", VString "t")])])
  ∧ (∃ t, on_message first_throws without_app absent_resolver
            (MessageEvent true message_authorization) two_on_postMessage =
            (Throw (ReferenceError "app is not defined"),
             State (reg two_on_postMessage) ([] ++ t) 0)
          ∧ calls t = [(0, VObject 7 [("token", VString "t")]);
                       (1, VObject 7 [("token", VString "t")])]).
Proof.
  split.
  - apply (listener_authorization_response first_throws alone absent_resolver 6
             [("type", VString "oauth.authorization_response");
              ("response", VObject 7 [("token", VString "t")]);
              ("method", VString "app.pubsub.unsubscribeObserver");
              ("observer", VString "evt")]
             (VString "oauth.authorization_response")
             (VObject 7 [("token", VString "t")]) two_on_postMessage 1
             [Local (VString "w") (handler 0); Local (VString "v") (handler 1)]);
      try reflexivity.
    + by split.
    + intros f d g _. reflexivity.
  - apply (listener_authorization_response first_throws without_app absent_resolver 6
             [("type", VString "oauth.authorization_response");
              ("response", VObject 7 [("token", VString "t")]);
              ("method", VString "app.pubsub.unsubscribeObserver");
              ("observer", VString "evt")]
             (VString "oauth.authorization_response")
             (VObject 7 [("token", VString "t")]) two_on_postMessage 1
             [Local (VString "w") (handler 0); Local (VString "v") (handler 1)]);
      try reflexivity.
    + by split.
    + intros f d g _. reflexivity.
Defined.

(** ** [initPostMessaging] *)

Lemma initPostMessaging_spec s :
  initPostMessaging s =
    (Return (),
     State (Registry (Obj.set "postMessage" (Bucket (length (heap (reg s))))
                        (events (reg s)))
              (heap (reg s) ++ [[]]))
       (trace s ++ [AddMessageListener]) (fresh s)).
Proof. unfold initPostMessaging. by step. Qed.

(** X21.  On a sound registry [initPostMessaging] announces one more
    listener and binds "postMessage" to a new empty bucket: records that
    were subscribed to "postMessage" are no longer delivered to, every
    other event name keeps what it holds and its records.  Called twice
    it has added two listeners. *)
Theorem initPostMessaging_rebinds s :
  sound (reg s) →
  ∃ g', initPostMessaging s =
          (Return (), State g' (trace s ++ [AddMessageListener]) (fresh s))
        ∧ bucket_at "postMessage" g' (length (heap (reg s))) []
        ∧ (∀ k, k ≠ "postMessage" →
             Obj.get k (events g') = Obj.get k (events (reg s))
             ∧ records k g' = records k (reg s))
        ∧ trace ((initPostMessaging;; initPostMessaging) s).2 =
          trace s ++ [AddMessageListener; AddMessageListener].
Proof.
  intros Hs. eexists. split; [by apply initPostMessaging_spec|]. split_and!.
  - split; cbn [events heap].
    + by apply ObjFacts.get_set_own.
    + by apply list_lookup_middle.
  - intros k Hne. split; cbn [events].
    + by apply ObjFacts.get_set_ne.
    + rewrite records_set_ne by done. by apply records_alloc.
  - rewrite bind_run, !initPostMessaging_spec.
    cbn [snd trace]. by rewrite <- app_assoc.
Qed.

Lemma two_on_postMessage_sound : sound (reg two_on_postMessage).
Proof.
  change (reg two_on_postMessage)
    with (reg ((initPostMessaging;;
                subscribe (VString "postMessage") (VString "w") (handler 0);;
                subscribe (VString "postMessage") (VString "v") (handler 1))
                 initial).2).
  apply preserves_bind; [apply preserves_sound_initPostMessaging| |apply initial_sound].
  intros _. apply preserves_bind; [apply preserves_sound_subscribe|].
  intros _. apply preserves_sound_subscribe.
Qed.

Lemma initPostMessaging_rebinds_witness :
  ∃ g', initPostMessaging two_on_postMessage =
          (Return (), State g' [AddMessageListener] 0)
        ∧ records "postMessage" (reg two_on_postMessage) =
          [Local (VString "w") (handler 0); Local (VString "v") (handler 1)]
        ∧ records "postMessage" g' = [].
Proof.
  destruct (initPostMessaging_rebinds two_on_postMessage two_on_postMessage_sound)
    as (g' & Hrun & Hb & _).
  exists g'. split; [exact Hrun|]. split; [reflexivity|].
  exact (bucket_at_records _ _ _ _ Hb).
Defined.
